(** * snakecube: a resumable backtracking solver for the snake cube puzzle

    Shallow embedding of [vector.py] and [snakecube.py].

    Python integers are [Z].  Python lists are Rocq lists, indexed the way
    Python does it: a negative index counts from the end and an index out
    of range raises [IndexError].  Exceptions are the [Raise] results of
    the [res] type; an uncaught exception aborts the whole call, and no
    statement below inspects the engine after one.  The [while] loops take
    fuel and answer [OutOfFuel] when it is used up. *)

From stdpp Require Import base decidable option list numbers countable gmap.

Local Open Scope Z_scope.

(** ** Results of partial operations *)

Inductive exn := AssertionError | IndexError | KeyError.

Inductive res (A : Type) :=
  | Ok (a : A)
  | Raise (e : exn)
  | OutOfFuel.
Arguments Ok {A} a.
Arguments Raise {A} e.
Arguments OutOfFuel {A}.

Global Instance res_bind : MBind res := λ A B f m,
  match m with
  | Ok a => f a
  | Raise e => Raise e
  | OutOfFuel => OutOfFuel
  end.
Global Instance res_ret : MRet res := λ A a, Ok a.

(** ** Python lists *)

(** [l[i]] *)
Definition py_index {A} (l : list A) (i : Z) : res A :=
  let n := Z.of_nat (length l) in
  let j := if decide (i < 0) then i + n else i in
  if decide (0 ≤ j < n) then
    match l !! Z.to_nat j with
    | Some a => Ok a
    | None => Raise IndexError
    end
  else Raise IndexError.

(** [l[i] = v] *)
Definition py_setitem {A} (l : list A) (i : Z) (v : A) : res (list A) :=
  let n := Z.of_nat (length l) in
  let j := if decide (i < 0) then i + n else i in
  if decide (0 ≤ j < n) then Ok (<[Z.to_nat j := v]> l)
  else Raise IndexError.

(** [l.pop()]: the list without its last element, and that element *)
Fixpoint list_pop {A} (l : list A) : res (list A * A) :=
  match l with
  | [] => Raise IndexError
  | [a] => Ok ([], a)
  | a :: l' => '(r, b) ← list_pop l'; Ok (a :: r, b)
  end.

(** [range(a, b)] *)
Definition range (a b : Z) : list Z :=
  (λ k : nat, a + Z.of_nat k) <$> seq 0 (Z.to_nat (b - a)).

(** [for a in l: s = body(a, s)] *)
Fixpoint for_in {A S} (l : list A) (body : A → S → res S) (s : S) : res S :=
  match l with
  | [] => Ok s
  | a :: l' => s' ← body a s; for_in l' body s'
  end.

(** ** vector.py *)

Module vector.

Record Vector3D := mkVector3D { x : Z; y : Z; z : Z }.

Global Instance Vector3D_eq_dec : EqDecision Vector3D.
Proof. solve_decision. Defined.

Global Instance Vector3D_countable : Countable Vector3D :=
  inj_countable' (λ v, (x v, y v, z v)) (λ t, mkVector3D t.1.1 t.1.2 t.2)
                 (λ v, match v with mkVector3D _ _ _ => eq_refl end).

Definition __add__ (self other : Vector3D) : Vector3D :=
  mkVector3D (x self + x other) (y self + y other) (z self + z other).

Definition __sub__ (self other : Vector3D) : Vector3D :=
  mkVector3D (x self - x other) (y self - y other) (z self - z other).

(** [other * self] for an integer [other] *)
Definition __rmul__ (self : Vector3D) (other : Z) : Vector3D :=
  mkVector3D (x self * other) (y self * other) (z self * other).

Definition __eq__ (self other : Vector3D) : bool :=
  bool_decide (x self = x other) && bool_decide (y self = y other)
  && bool_decide (z self = z other).

Definition to_list (self : Vector3D) : list Z := [x self; y self; z self].

Definition __getitem__ (self : Vector3D) (index : Z) : res Z :=
  py_index [x self; y self; z self] index.

Definition __len__ (self : Vector3D) : Z := 3.

(** The iterator is the vector itself with its [_pos] attribute, which
    [__iter__] sets to 0; [None] stands for [StopIteration]. *)
Definition __iter__ (self : Vector3D) : Vector3D * Z := (self, 0).

Definition __next__ (it : Vector3D * Z) : res (option (Z * (Vector3D * Z))) :=
  let '(self, _pos) := it in
  if decide (_pos >= __len__ self) then Ok None
  else
    let pos := _pos in
    v ← __getitem__ self pos;
    Ok (Some (v, (self, _pos + 1))).

Definition from_list (lst : list Z) : res Vector3D :=
  a ← py_index lst 0; b ← py_index lst 1; c ← py_index lst 2;
  Ok (mkVector3D a b c).

(** [sum(l)] *)
Definition sum (l : list Z) : Z := foldl Z.add 0 l.

(** A [Vector3D] argument is iterated like its [to_list]; callers pass that
    list. *)
Definition multiply (matrix : list (list Z)) (vector : list Z) : res Vector3D :=
  result ← for_in matrix (λ row result,
    if decide (length row = length vector)
    then Ok (result ++ [sum (zip_with Z.mul row vector)])
    else Raise AssertionError) [];
  from_list result.

Definition baseVectors : list Vector3D :=
  [mkVector3D 1 0 0; mkVector3D 0 1 0; mkVector3D 0 0 1].

Definition baseDirections : list Vector3D :=
  [mkVector3D 1 0 0; mkVector3D 0 1 0; mkVector3D 0 0 1;
   mkVector3D (-1) 0 0; mkVector3D 0 (-1) 0; mkVector3D 0 0 (-1)].

Definition rotx : list (list Z) := [[1; 0; 0]; [0; 0; -1]; [0; 1; 0]].
Definition roty : list (list Z) := [[0; 0; 1]; [0; 1; 0]; [-1; 0; 0]].
Definition rotz : list (list Z) := [[0; -1; 0]; [1; 0; 0]; [0; 0; 1]].

Definition mirror_yz : list (list Z) := [[-1; 0; 0]; [0; 1; 0]; [0; 0; 1]].
Definition mirror_zx : list (list Z) := [[1; 0; 0]; [0; -1; 0]; [0; 0; 1]].
Definition mirror_xy : list (list Z) := [[1; 0; 0]; [0; 1; 0]; [0; 0; -1]].

End vector.

Export vector (Vector3D, mkVector3D, multiply, baseVectors, baseDirections,
               rotx, roty, rotz, mirror_yz, mirror_zx, mirror_xy).

Notation "a +v b" := (vector.__add__ a b) (at level 50, left associativity).
Notation "n *v a" := (vector.__rmul__ a n) (at level 40, left associativity).

(** [max(v.to_list())] and [min(v.to_list())] *)
Definition vmax (v : Vector3D) : Z :=
  Z.max (vector.x v) (Z.max (vector.y v) (vector.z v)).
Definition vmin (v : Vector3D) : Z :=
  Z.min (vector.x v) (Z.min (vector.y v) (vector.z v)).

(** ** snakecube.py: the joint lookup table *)

(** The source keys its dicts by [str(vector)], the text
    [Vector3D(x, y, z)], which determines the vector; the maps here are
    keyed by the vector itself. *)
Definition dict_get {V} (d : gmap Vector3D V) (k : Vector3D) : res V :=
  match d !! k with
  | Some v => Ok v
  | None => Raise KeyError
  end.

Definition N_PLANE_BASEDIR : Z := 4.
Definition N_BASEVEC : Z := 3.

Definition mapVtoRM : gmap Vector3D (list (list Z)) :=
  <[mkVector3D 0 0 1 := rotz]>
    (<[mkVector3D 0 1 0 := roty]> (<[mkVector3D 1 0 0 := rotx]> ∅)).

(** [enumerate(l)] *)
Definition enumerate {A} (l : list A) : list (Z * A) :=
  imap (λ i a, (Z.of_nat i, a)) l.

Definition _makeJointDirections : res (gmap Vector3D (list Vector3D)) :=
  for_in (enumerate baseVectors) (λ '(i, vector) jointDirections,
    rotmat ← dict_get mapVtoRM vector;
    first ← py_index baseVectors ((i + 1) `mod` N_BASEVEC);
    newDirections ← for_in (range 0 N_PLANE_BASEDIR) (λ j newDirections,
      last ← py_index newDirections (-1);
      v ← multiply rotmat (vector.to_list last);
      Ok (newDirections ++ [v])) [first];
    Ok (<[(-1) *v vector := newDirections]>
          (<[vector := newDirections]> jointDirections))) ∅.

Definition jointDirections : gmap Vector3D (list Vector3D) :=
  match _makeJointDirections with
  | Ok t => t
  | _ => ∅
  end.

Definition N_JNTS : Z := 4.
Definition JOINT0 : Z := 0.
Definition JOINT1 : Z := 1.
Definition JOINT2 : Z := 2.
Definition JOINT3 : Z := 3.
Definition POS_USED : Z := -1.
Definition POS_FREE : Z := -2.

(** ** snakecube.py: BacktrackHead *)

Record BacktrackHead := mkHead {
  base : Vector3D;
  direction : Vector3D;
  _old_direction : option Vector3D
}.

(** [BacktrackHead(base, direction)] *)
Definition BacktrackHead_init (base direction : Vector3D) : BacktrackHead :=
  mkHead base direction None.

Definition get_sign (self : BacktrackHead) : Z :=
  if decide (vmax (direction self) = 1) then 1 else -1.

Definition move (self : BacktrackHead) (nsteps : Z) : BacktrackHead :=
  mkHead (base self +v nsteps *v direction self) (direction self)
         (_old_direction self).

Definition change_direction (self : BacktrackHead) : res BacktrackHead :=
  let old := direction self in
  let joint_state := JOINT0 in
  candidates ← dict_get jointDirections old;
  d ← py_index candidates joint_state;
  Ok (mkHead (base self) d (Some old)).

Definition rotate_to (self : BacktrackHead) (joint_state : Z) : res BacktrackHead :=
  match _old_direction self with
  | None => Raise AssertionError
  | Some old =>
      candidates ← dict_get jointDirections old;
      d ← py_index candidates joint_state;
      Ok (mkHead (base self) d (Some old))
  end.

(** ** snakecube.py: Backtrack *)

Definition Path := list BacktrackHead.

Record Backtrack := mkBacktrack {
  chain : list Z;
  cubesize : Z;
  head : BacktrackHead;
  _pos : Z;
  _chainlength : Z;
  _cube : list (list (list Z));
  _paths : list Path
}.

Definition set_head (self : Backtrack) (h : BacktrackHead) : Backtrack :=
  mkBacktrack (chain self) (cubesize self) h (_pos self) (_chainlength self)
              (_cube self) (_paths self).
Definition set_pos (self : Backtrack) (p : Z) : Backtrack :=
  mkBacktrack (chain self) (cubesize self) (head self) p (_chainlength self)
              (_cube self) (_paths self).
Definition set_cube (self : Backtrack) (c : list (list (list Z))) : Backtrack :=
  mkBacktrack (chain self) (cubesize self) (head self) (_pos self)
              (_chainlength self) c (_paths self).
Definition set_paths (self : Backtrack) (ps : list Path) : Backtrack :=
  mkBacktrack (chain self) (cubesize self) (head self) (_pos self)
              (_chainlength self) (_cube self) ps.

(** [Backtrack(chain, cubesize, head)] *)
Definition Backtrack_init (chain : list Z) (cubesize : Z) (head : BacktrackHead)
    : Backtrack :=
  let n := Z.to_nat cubesize in
  mkBacktrack chain cubesize head 0 (Z.of_nat (length chain))
              (replicate n (replicate n (replicate n POS_FREE))) [].

Definition cube_get (cube : list (list (list Z))) (pos : Vector3D) : res Z :=
  plane ← py_index cube (vector.x pos);
  row ← py_index plane (vector.y pos);
  py_index row (vector.z pos).

Definition cube_set (cube : list (list (list Z))) (pos : Vector3D) (value : Z)
    : res (list (list (list Z))) :=
  plane ← py_index cube (vector.x pos);
  row ← py_index plane (vector.y pos);
  row' ← py_setitem row (vector.z pos) value;
  plane' ← py_setitem plane (vector.y pos) row';
  py_setitem cube (vector.x pos) plane'.

Definition _cube_get_offset (self : Backtrack) (offset : Z) : res Z :=
  let pos := base (head self) +v offset *v direction (head self) in
  cube_get (_cube self) pos.

Definition _cube_set_offset (self : Backtrack) (offset value : Z) : res Backtrack :=
  let pos := base (head self) +v offset *v direction (head self) in
  cube' ← cube_set (_cube self) pos value;
  Ok (set_cube self cube').

Definition _joint_wrapped (joint_state : Z) : bool :=
  bool_decide (joint_state >= N_JNTS).

(** The two [while] loops of [_nsteps]: [up] is the branch taken for
    [get_sign() == 1]. *)
Fixpoint _nsteps_loop (fuel : nat) (self : Backtrack) (up : bool)
    (pos : Vector3D) (nsteps : Z) : res Z :=
  let next := pos +v direction (head self) in
  if (if up then bool_decide (vmax next < cubesize self)
      else bool_decide (vmin next >= 0)) then
    v ← _cube_get_offset self (nsteps + 1);
    if decide (v = POS_FREE) then
      match fuel with
      | O => OutOfFuel
      | S fuel' => _nsteps_loop fuel' self up next (nsteps + 1)
      end
    else Ok nsteps
  else Ok nsteps.

Definition _nsteps (fuel : nat) (self : Backtrack) : res Z :=
  _nsteps_loop fuel self (bool_decide (get_sign (head self) = 1))
               (base (head self)) 0.

(** The statements under "restore _pos, head, and path", "restore cube" and
    "pick new direction", which [_backtrack] has twice with the same text. *)
Definition restore (self : Backtrack) (path : Path) : res (Backtrack * Path) :=
  let self := set_pos self (_pos self - 1) in
  '(path, h) ← list_pop path;
  let self := set_head self h in
  steps_to_delete ← py_index (chain self) (_pos self);
  self ← for_in (range 1 (steps_to_delete + 1))
                (λ i self, _cube_set_offset self i POS_FREE) self;
  joint_state ← _cube_get_offset self 0;
  h' ← rotate_to (head self) ((joint_state + 1) `mod` N_JNTS);
  let self := set_head self h' in
  self ← _cube_set_offset self 0 (joint_state + 1);
  Ok (self, path).

(** What one pass through the body of the search loop does: go on with the
    loop, or leave [_backtrack] with [return None]. *)
Inductive step :=
  | Continue (self : Backtrack) (path : Path)
  | ReturnNone (self : Backtrack).

Definition loop_body (fuel : nat) (self : Backtrack) (path : Path) : res step :=
  joint_state ← _cube_get_offset self 0;
  if negb (_joint_wrapped joint_state) then
    steps_needed ← py_index (chain self) (_pos self);
    steps_allowed ← _nsteps fuel self;
    if decide (steps_allowed < steps_needed) then
      match rotate_to (head self) ((joint_state + 1) `mod` N_JNTS) with
      | Raise AssertionError => Ok (ReturnNone self)
      | Raise e => Raise e
      | OutOfFuel => OutOfFuel
      | Ok h' =>
          self ← _cube_set_offset (set_head self h') 0 (joint_state + 1);
          Ok (Continue self path)
      end
    else
      let new_joint_state := JOINT0 in
      self ← for_in (range 1 steps_needed)
                    (λ i self, _cube_set_offset self i POS_USED) self;
      self ← _cube_set_offset self steps_needed new_joint_state;
      let path := path ++ [head self] in
      let self := set_head self (move (head self) steps_needed) in
      h' ← change_direction (head self);
      let self := set_head self h' in
      let self := set_pos self (_pos self + 1) in
      Ok (Continue self path)
  else
    if decide (_pos self = 1) then Ok (ReturnNone self)
    else '(self, path) ← restore self path; Ok (Continue self path).

Fixpoint while_loop (fuel : nat) (self : Backtrack) (path : Path)
    : res (option Path * Backtrack) :=
  if decide (_pos self < _chainlength self) then
    match fuel with
    | O => OutOfFuel
    | S fuel' =>
        r ← loop_body fuel' self path;
        match r with
        | Continue self path => while_loop fuel' self path
        | ReturnNone self => Ok (None, self)
        end
    end
  else Ok (Some path, self).

Definition _backtrack (fuel : nat) (self : Backtrack)
    : res (option Path * Backtrack) :=
  if decide (_pos self = 0) then
    self ← _cube_set_offset self 0 POS_USED;
    while_loop fuel self []
  else
    path ← py_index (_paths self) (-1);
    '(self, path) ← restore self path;
    while_loop fuel self path.

(** The [while path is not None] loop of [solve]. *)
Fixpoint solve_loop (fuel : nat) (self : Backtrack) (path : option Path)
    : res Backtrack :=
  match path with
  | None => Ok self
  | Some p =>
      match fuel with
      | O => OutOfFuel
      | S fuel' =>
          let self := set_paths self (_paths self ++ [p]) in
          '(path, self) ← _backtrack fuel' self;
          solve_loop fuel' self path
      end
  end.

Definition solve (fuel : nat) (self : Backtrack) : res (list Path * Backtrack) :=
  if decide (_paths self = []) then
    '(path, self) ← _backtrack fuel self;
    self ← solve_loop fuel self path;
    Ok (_paths self, self)
  else Ok (_paths self, self).

(** ** The demonstration in [main] *)

Definition chain_slices : list Z :=
  [2; 1; 1; 2; 1; 2; 1; 1; 2; 2; 1; 1; 1; 2; 2; 2; 2].

(** [list(map(lambda x: x.base.to_list(), path))] *)
Definition path_points (path : Path) : list (list Z) :=
  (λ h, vector.to_list (base h)) <$> path.

(** [f] of [main]: mirror at the yz-plane, then [rotx], then [rotz] twice *)
Definition f (x : list Z) : res (list Z) :=
  a ← multiply mirror_yz x;
  b ← multiply rotx (vector.to_list a);
  c ← multiply rotz (vector.to_list b);
  d ← multiply rotz (vector.to_list c);
  Ok (vector.to_list d).

(** [list(map(f, l))] *)
Definition map_res {A B} (g : A → res B) (l : list A) : res (list B) :=
  for_in l (λ a acc, b ← g a; Ok (acc ++ [b])) [].

(** * Vocabulary of the properties *)

(** A result that did not run out of fuel. *)
Definition finished {A} (r : res A) : Prop := r ≠ OutOfFuel.

Definition dot (a b : Vector3D) : Z :=
  vector.x a * vector.x b + vector.y a * vector.y b + vector.z a * vector.z b.

(** One application of a rotation matrix to a vector. *)
Definition rotate (rotmat : list (list Z)) (v : Vector3D) : res Vector3D :=
  multiply rotmat (vector.to_list v).

(** A cell of the cube of edge length [n]. *)
Definition cell_ok (n : Z) (c : Vector3D) : Prop :=
  0 ≤ vector.x c < n ∧ 0 ≤ vector.y c < n ∧ 0 ≤ vector.z c < n.

(** An [n]×[n]×[n] nest of lists. *)
Definition cube_wf (n : Z) (cube : list (list (list Z))) : Prop :=
  length cube = Z.to_nat n ∧
  Forall (λ plane, length plane = Z.to_nat n ∧
                   Forall (λ row : list Z, length row = Z.to_nat n) plane) cube.

(** The cells a snapshot covers when the slice of length [c] is laid from
    it: the cells at offsets 1 to [c] from its base along its direction. *)
Definition slice_cells (h : BacktrackHead) (c : Z) : list Vector3D :=
  (λ k, base h +v k *v direction h) <$> range 1 (c + 1).

(** The cells swept by a path, replayed over the chain: the base of the
    first snapshot, then the cells of each slice in turn. *)
Definition swept (chain : list Z) (path : Path) : list Vector3D :=
  match path with
  | [] => []
  | h :: _ => base h :: concat (zip_with slice_cells path chain)
  end.

(** The same cells for a walk known to start at [s]. *)
Definition occupied (s : Vector3D) (ch : list Z) (path : Path) : list Vector3D :=
  s :: concat (zip_with slice_cells path ch).

(** The snapshots follow each other along the chain from [s], each slice
    ending where the next snapshot stands, the last one at [e]. *)
Fixpoint linked (s : Vector3D) (ch : list Z) (path : Path) (e : Vector3D)
    {struct path} : Prop :=
  match path, ch with
  | [], _ => e = s
  | h :: path', c :: ch' =>
      base h = s ∧ linked (base h +v c *v direction h) ch' path' e
  | _ :: _, [] => False
  end.

(** The bookkeeping of the loop that does not depend on the cube. *)
Record LenInv (ch : list Z) (ps : list Path) (self : Backtrack) (path : Path)
    : Prop := {
  li_chain : chain self = ch;
  li_chainlength : _chainlength self = Z.of_nat (length ch);
  li_paths : _paths self = ps;
  li_pos : _pos self = Z.of_nat (length path);
  li_le : (length path ≤ length ch)%nat
}.

(** What the loop keeps true of the cube and the walk laid in it. *)
Record Geo (n : Z) (ch : list Z) (s : Vector3D) (self : Backtrack)
    (path : Path) : Prop := {
  geo_cubesize : cubesize self = n;
  geo_wf : cube_wf n (_cube self);
  geo_vals : ∀ c v, cell_ok n c → cube_get (_cube self) c = Ok v → POS_FREE ≤ v;
  geo_linked : linked s ch path (base (head self));
  geo_nodup : NoDup (occupied s ch path);
  geo_occ : ∀ c, c ∈ occupied s ch path →
              cell_ok n c ∧ cube_get (_cube self) c ≠ Ok POS_FREE
}.

Definition Inv (n : Z) (ch : list Z) (s : Vector3D) (ps : list Path)
    (self : Backtrack) (path : Path) : Prop :=
  LenInv ch ps self path ∧ Geo n ch s self path.

(** A solution sweeps pairwise distinct cells of the cube, slice after
    slice from [s]. *)
Definition sweeps_cube (n : Z) (ch : list Z) (s : Vector3D) (p : Path) : Prop :=
  NoDup (swept ch p) ∧ Forall (cell_ok n) (swept ch p) ∧
  ∃ e, linked s ch p e.

(** What the first-run branch of [_backtrack] needs. *)
Definition fresh (n : Z) (ch : list Z) (s : Vector3D) (self : Backtrack)
    : Prop :=
  chain self = ch ∧ _chainlength self = Z.of_nat (length ch) ∧
  _pos self = 0 ∧ cubesize self = n ∧ cube_wf n (_cube self) ∧
  (∀ c v, cell_ok n c → cube_get (_cube self) c = Ok v → POS_FREE ≤ v) ∧
  base (head self) = s ∧ cell_ok n s.

(** The starting head of the scenarios. *)
Definition start000 : BacktrackHead :=
  BacktrackHead_init (mkVector3D 0 0 0) (mkVector3D 1 0 0).

(** The engine of the search on [[1; 2]] in a cube of edge 2 when the
    joint at the end of the first slice has wrapped. *)
Definition wrapped_at_1 : Backtrack :=
  mkBacktrack [1; 2] 2
    (mkHead (mkVector3D 1 0 0) (mkVector3D 0 1 0) (Some (mkVector3D 1 0 0)))
    1 2 [[[-1; -2]; [-2; -2]]; [[4; -2]; [-2; -2]]] [].

(** The engine of the search on [[1; 1; 2]] in a cube of edge 2 when the
    joint at the end of the second slice has wrapped, and its path. *)
Definition wrapped_at_2 : Backtrack :=
  mkBacktrack [1; 1; 2] 2
    (mkHead (mkVector3D 1 1 0) (mkVector3D 0 0 1) (Some (mkVector3D 0 1 0)))
    2 3 [[[-1; -2]; [-2; -2]]; [[0; -2]; [4; -2]]] [].

Definition wrapped_at_2_path : Path :=
  [start000;
   mkHead (mkVector3D 1 0 0) (mkVector3D 0 1 0) (Some (mkVector3D 1 0 0))].

(** [list(it)]: calling [__next__] until it stops. *)
Fixpoint iterate (fuel : nat) (it : Vector3D * Z) : res (list Z) :=
  match fuel with
  | O => OutOfFuel
  | S fuel' =>
      r ← vector.__next__ it;
      match r with
      | None => Ok []
      | Some (v, it') => l ← iterate fuel' it'; Ok (v :: l)
      end
  end.

(** The products of the rows of a matrix with a vector. *)
Definition row_products (matrix : list (list Z)) (v : list Z) : list Z :=
  (λ row, vector.sum (zip_with Z.mul row v)) <$> matrix.

(** All cells of the cube of edge length [n]. *)
Definition all_cells (n : Z) : list Vector3D :=
  (λ t : Z * (Z * Z), mkVector3D t.1 t.2.1 t.2.2)
    <$> list_prod (range 0 n) (list_prod (range 0 n) (range 0 n)).

(** Snapshot [b] is what a 90 degree joint makes of snapshot [a]: it
    remembers the direction of [a], and both look along base directions
    perpendicular to each other. *)
Definition turns (a b : BacktrackHead) : Prop :=
  _old_direction b = Some (direction a) ∧
  direction a ∈ baseDirections ∧ direction b ∈ baseDirections ∧
  dot (direction b) (direction a) = 0.

(** Every snapshot of the list turns into the next one. *)
Fixpoint bends (l : list BacktrackHead) : Prop :=
  match l with
  | a :: l' => match l' with b :: _ => turns a b | [] => True end ∧ bends l'
  | [] => True
  end.

(** The engine on chain [[1]] in the cube of edge 2 after the first-run
    branch has marked the start. *)
Definition marked_start : Backtrack :=
  mkBacktrack [1] 2 start000 0 1 [[[-1; -2]; [-2; -2]]; [[-2; -2]; [-2; -2]]] [].

(** The engine on chain [[1; 2]] in the cube of edge 2 after the first
    slice has been laid. *)
Definition first_slice_laid : Backtrack :=
  mkBacktrack [1; 2] 2
    (mkHead (mkVector3D 1 0 0) (mkVector3D 0 1 0) (Some (mkVector3D 1 0 0)))
    1 2 [[[-1; -2]; [-2; -2]]; [[0; -2]; [-2; -2]]] [].

(** The states in which the search loop stands at the top of a pass, for a
    chain [ch] in the cube of edge [n] and a start at [s]: the state after
    the first-run branch has marked the start, every state a pass of the
    loop goes on with, and the state after the restart branch has taken
    back the last slice of the solution just returned. *)
Inductive in_search (n : Z) (ch : list Z) (s : Vector3D)
    : Backtrack → Path → Prop :=
  | search_first self self' :
      fresh n ch s self →
      _cube_set_offset self 0 POS_USED = Ok self' →
      in_search n ch s self' []
  | search_pass fuel self path self' path' :
      in_search n ch s self path →
      loop_body fuel self path = Ok (Continue self' path') →
      in_search n ch s self' path'
  | search_restart self path self' path' :
      in_search n ch s self path →
      ¬ (_pos self < _chainlength self) →
      restore (set_paths self (_paths self ++ [path])) path
      = Ok (self', path') →
      in_search n ch s self' path'.

(** [k] passes of the loop that all go on. *)
Fixpoint passes (k fuel : nat) (self : Backtrack) (path : Path)
    : res (Backtrack * Path) :=
  match k with
  | O => Ok (self, path)
  | S k' =>
      r ← loop_body fuel self path;
      match r with
      | Continue self' path' => passes k' fuel self' path'
      | ReturnNone _ => Raise AssertionError
      end
  end.

(** * Properties *)

(** ** The [res] monad *)

Lemma bind_Ok {A B} (m : res A) (k : A → res B) (b : B) :
  m ≫= k = Ok b ↔ ∃ a, m = Ok a ∧ k a = Ok b.
Proof.
  destruct m as [a| |]; simpl; split; try (intros (? & ? & ?)); try done.
  - intros H. by exists a.
  - by simplify_eq.
Qed.

Ltac inv_bind H :=
  repeat match type of H with
  | _ ≫= _ = Ok _ =>
      let a := fresh "a" in let Ha := fresh "Ha" in
      apply bind_Ok in H as (a & Ha & H)
  end.

Lemma bind_fuel {A B} (m m' : res A) (k k' : A → res B) :
  (finished m → m' = m) →
  (∀ a, m = Ok a → finished (k a) → k' a = k a) →
  finished (m ≫= k) → m' ≫= k' = m ≫= k.
Proof.
  intros Hm Hk Hf. destruct m as [a| |]; simpl in *.
  - rewrite Hm by done. simpl. by apply Hk.
  - by rewrite Hm.
  - done.
Qed.

(** ** More fuel never changes a finished run *)

Lemma _nsteps_loop_fuel (fuel fuel' : nat) self up pos nsteps :
  (fuel ≤ fuel')%nat →
  finished (_nsteps_loop fuel self up pos nsteps) →
  _nsteps_loop fuel' self up pos nsteps = _nsteps_loop fuel self up pos nsteps.
Proof.
  revert fuel' pos nsteps.
  induction fuel as [|fuel IH]; intros fuel' pos nsteps Hle Hf;
    destruct fuel' as [|fuel']; try lia; simpl in *;
    destruct (if up then _ else _); try done;
    (apply bind_fuel; [done| |done]); intros v _ Hv;
    destruct (decide _); try done.
  apply IH; [lia|done].
Qed.

Lemma _nsteps_fuel (fuel fuel' : nat) self :
  (fuel ≤ fuel')%nat → finished (_nsteps fuel self) →
  _nsteps fuel' self = _nsteps fuel self.
Proof. apply _nsteps_loop_fuel. Qed.

Lemma loop_body_fuel (fuel fuel' : nat) self path :
  (fuel ≤ fuel')%nat → finished (loop_body fuel self path) →
  loop_body fuel' self path = loop_body fuel self path.
Proof.
  intros Hle. unfold loop_body.
  destruct (_cube_get_offset self 0) as [js| |]; simpl; try done.
  destruct (negb _); try done.
  destruct (py_index _ _) as [c| |]; simpl; try done.
  intros Hf. apply bind_fuel; try done.
  intros ?. by apply _nsteps_fuel.
Qed.

Lemma while_loop_fuel (fuel fuel' : nat) self path :
  (fuel ≤ fuel')%nat → finished (while_loop fuel self path) →
  while_loop fuel' self path = while_loop fuel self path.
Proof.
  revert fuel' self path.
  induction fuel as [|fuel IH]; intros fuel' self path Hle Hf;
    destruct fuel' as [|fuel']; try lia; simpl in *;
    destruct (decide _); try done.
  apply bind_fuel; try done.
  - intros ?. apply loop_body_fuel; [lia|done].
  - intros [s p|s] _ Hr; [|done]. apply IH; [lia|done].
Qed.

Lemma _backtrack_fuel (fuel fuel' : nat) self :
  (fuel ≤ fuel')%nat → finished (_backtrack fuel self) →
  _backtrack fuel' self = _backtrack fuel self.
Proof.
  intros Hle. unfold _backtrack. destruct (decide _).
  - intros Hf. apply bind_fuel; try done.
    intros s _. by apply while_loop_fuel.
  - intros Hf. apply bind_fuel; try done. intros p _ Hp.
    apply bind_fuel; try done. intros [s q] _. by apply while_loop_fuel.
Qed.

Lemma solve_loop_fuel (fuel fuel' : nat) self path :
  (fuel ≤ fuel')%nat → finished (solve_loop fuel self path) →
  solve_loop fuel' self path = solve_loop fuel self path.
Proof.
  revert fuel' self path.
  induction fuel as [|fuel IH]; intros fuel' self [p|] Hle Hf;
    destruct fuel' as [|fuel']; try lia; simpl in *; try done.
  apply bind_fuel; try done.
  - intros ?. apply _backtrack_fuel; [lia|done].
  - intros [q s] _ Hr. apply IH; [lia|done].
Qed.

Lemma solve_fuel (fuel fuel' : nat) self :
  (fuel ≤ fuel')%nat → finished (solve fuel self) →
  solve fuel' self = solve fuel self.
Proof.
  intros Hle. unfold solve. destruct (decide _); [|done].
  intros Hf. apply bind_fuel; try done.
  - intros ?. by apply _backtrack_fuel.
  - intros [q s] _ Hr. apply bind_fuel; try done.
    intros ?. by apply solve_loop_fuel.
Qed.

(** ** The joint lookup table *)

Lemma _makeJointDirections_Ok : _makeJointDirections = Ok jointDirections.
Proof. by vm_compute. Qed.

Lemma jointDirections_rows k l :
  jointDirections !! k = Some l →
  (k, l) ∈ map_to_list jointDirections.
Proof. by rewrite elem_of_map_to_list. Qed.

Ltac table_cases H :=
  apply jointDirections_rows in H;
  let rows := eval vm_compute in (map_to_list jointDirections) in
  change (map_to_list jointDirections) with rows in H;
  repeat (apply elem_of_cons in H as [H|H]; [simplify_eq|]);
  [..|by apply elem_of_nil in H].

Lemma jointDirections_keys k :
  is_Some (jointDirections !! k) ↔ k ∈ baseDirections.
Proof.
  split.
  - intros [l H]. table_cases H; unfold baseDirections; set_solver.
  - intros H. unfold baseDirections in H.
    repeat (apply elem_of_cons in H as [->|H];
      [by apply (bool_decide_unpack _); vm_compute|]).
    by apply elem_of_nil in H.
Qed.

(** C7: the table has one row per base direction, and both directions of
    an axis share one row; each row has five entries, the fifth repeating
    the first, because the loop over [range(N_PLANE_BASEDIR)] appends four
    vectors to the one the row starts with. *)
Theorem jointDirections_rows_have_five_entries :
  _makeJointDirections = Ok jointDirections ∧
  size jointDirections = 6%nat ∧
  (∀ k, is_Some (jointDirections !! k) ↔ k ∈ baseDirections) ∧
  (∀ k l, jointDirections !! k = Some l →
     length l = 5%nat ∧ l !! 4%nat = l !! 0%nat ∧
     jointDirections !! ((-1) *v k) = Some l).
Proof.
  split; [apply _makeJointDirections_Ok|].
  split; [by vm_compute|]. split; [apply jointDirections_keys|].
  intros k l H. table_cases H; by vm_compute.
Qed.

(** C8: in the row of a key, every entry after the first is the rotation
    of the entry before it by the matrix of the key's axis; four rotations
    bring entry 0 back to itself; entries 0 to 3 are pairwise distinct and
    perpendicular to the key. *)
Theorem jointDirections_closure (k : Vector3D) (l : list Vector3D) :
  jointDirections !! k = Some l →
  ∃ axis rotmat,
    axis ∈ baseVectors ∧ (k = axis ∨ k = (-1) *v axis) ∧
    mapVtoRM !! axis = Some rotmat ∧
    (∀ (i : nat) a b, l !! i = Some a → l !! S i = Some b →
       rotate rotmat a = Ok b) ∧
    (∃ c0, l !! 0%nat = Some c0 ∧
       (c1 ← rotate rotmat c0; c2 ← rotate rotmat c1;
        c3 ← rotate rotmat c2; rotate rotmat c3) = Ok c0) ∧
    length (take 4 l) = 4%nat ∧
    NoDup (take 4 l) ∧
    (∀ c, c ∈ take 4 l → dot c k = 0).
Proof.
  intros H.
  table_cases H;
    [exists (mkVector3D 0 1 0), roty | exists (mkVector3D 1 0 0), rotx
    |exists (mkVector3D 0 0 1), rotz | exists (mkVector3D 0 1 0), roty
    |exists (mkVector3D 0 0 1), rotz | exists (mkVector3D 1 0 0), rotx];
    (split; [unfold baseVectors; set_solver|]);
    (split; [by (left + right); vm_compute|]);
    (split; [by vm_compute|]);
    (split; [intros [|[|[|[|[|i]]]]] a b Ha Hb; simpl in *; by simplify_eq|]);
    (split; [eexists; split; [done|by vm_compute]|]);
    (split; [done|]);
    (split; [by apply (bool_decide_unpack _); vm_compute|]);
    intros c Hc; simpl in Hc;
    repeat (apply elem_of_cons in Hc as [->|Hc]; [done|]);
    by apply elem_of_nil in Hc.
Qed.

Lemma jointDirections_closure_witness :
  ∃ axis rotmat,
    axis ∈ baseVectors ∧
    (mkVector3D (-1) 0 0 = axis ∨ mkVector3D (-1) 0 0 = (-1) *v axis) ∧
    mapVtoRM !! axis = Some rotmat ∧
    (∀ (i : nat) a b,
       [mkVector3D 0 1 0; mkVector3D 0 0 1; mkVector3D 0 (-1) 0;
        mkVector3D 0 0 (-1); mkVector3D 0 1 0] !! i = Some a →
       [mkVector3D 0 1 0; mkVector3D 0 0 1; mkVector3D 0 (-1) 0;
        mkVector3D 0 0 (-1); mkVector3D 0 1 0] !! S i = Some b →
       rotate rotmat a = Ok b) ∧
    (∃ c0,
       [mkVector3D 0 1 0; mkVector3D 0 0 1; mkVector3D 0 (-1) 0;
        mkVector3D 0 0 (-1); mkVector3D 0 1 0] !! 0%nat = Some c0 ∧
       (c1 ← rotate rotmat c0; c2 ← rotate rotmat c1;
        c3 ← rotate rotmat c2; rotate rotmat c3) = Ok c0) ∧
    length (take 4 [mkVector3D 0 1 0; mkVector3D 0 0 1; mkVector3D 0 (-1) 0;
                    mkVector3D 0 0 (-1); mkVector3D 0 1 0]) = 4%nat ∧
    NoDup (take 4 [mkVector3D 0 1 0; mkVector3D 0 0 1; mkVector3D 0 (-1) 0;
                   mkVector3D 0 0 (-1); mkVector3D 0 1 0]) ∧
    (∀ c, c ∈ take 4 [mkVector3D 0 1 0; mkVector3D 0 0 1; mkVector3D 0 (-1) 0;
                      mkVector3D 0 0 (-1); mkVector3D 0 1 0] →
          dot c (mkVector3D (-1) 0 0) = 0).
Proof.
  apply (jointDirections_closure (mkVector3D (-1) 0 0)). vm_compute. reflexivity.
Defined.

(** ** Lists and the cube *)

Lemma py_index_lookup {A} (l : list A) (i : Z) (a : A) :
  0 ≤ i → l !! Z.to_nat i = Some a → py_index l i = Ok a.
Proof.
  intros Hi Hl. unfold py_index.
  pose proof (lookup_lt_Some _ _ _ Hl).
  destruct (decide (i < 0)); [lia|]. destruct (decide _); [|lia].
  by rewrite Hl.
Qed.

Lemma py_index_Ok_nonneg {A} (l : list A) (i : Z) (a : A) :
  0 ≤ i → py_index l i = Ok a → l !! Z.to_nat i = Some a.
Proof.
  intros Hi. unfold py_index.
  destruct (decide (i < 0)); [lia|]. destruct (decide _); [|done].
  by destruct (l !! Z.to_nat i); intros; simplify_eq.
Qed.

Lemma py_setitem_insert {A} (l : list A) (i : Z) (v : A) :
  0 ≤ i < Z.of_nat (length l) → py_setitem l i v = Ok (<[Z.to_nat i := v]> l).
Proof.
  intros Hi. unfold py_setitem.
  destruct (decide (i < 0)); [lia|]. by destruct (decide _).
Qed.

Lemma list_pop_snoc {A} (l : list A) (a : A) : list_pop (l ++ [a]) = Ok (l, a).
Proof.
  induction l as [|b l IH]; [done|]. simpl. rewrite IH.
  by destruct l.
Qed.

Lemma list_pop_Ok {A} (l r : list A) (a : A) :
  list_pop l = Ok (r, a) → l = r ++ [a].
Proof.
  revert r. induction l as [|b l IH]; intros r; [done|].
  destruct l as [|c l]; [intros H; simpl in H; by simplify_eq|].
  intros H. change (list_pop (b :: c :: l)) with
    ('(r, x) ← list_pop (c :: l); Ok (b :: r, x)) in H.
  inv_bind H. destruct a0 as [r' x]. simplify_eq.
  by rewrite (IH r').
Qed.

Lemma elem_of_range (a b k : Z) : k ∈ range a b ↔ a ≤ k < b.
Proof.
  unfold range. rewrite list_elem_of_fmap. split.
  - intros (i & -> & Hi). apply elem_of_seq in Hi. lia.
  - intros Hk. exists (Z.to_nat (k - a)). split; [lia|].
    apply elem_of_seq. lia.
Qed.

Lemma NoDup_range (a b : Z) : NoDup (range a b).
Proof.
  unfold range. apply NoDup_fmap_2; [|apply NoDup_seq].
  intros i j. lia.
Qed.

Lemma cube_wf_init ch (n : Z) h : cube_wf n (_cube (Backtrack_init ch n h)).
Proof.
  split; simpl; [by rewrite length_replicate|].
  apply Forall_replicate. split; [by rewrite length_replicate|].
  apply Forall_replicate. by rewrite length_replicate.
Qed.

Lemma cube_wf_lookup n cube c :
  cube_wf n cube → cell_ok n c →
  ∃ plane row v,
    cube !! Z.to_nat (vector.x c) = Some plane ∧
    plane !! Z.to_nat (vector.y c) = Some row ∧
    row !! Z.to_nat (vector.z c) = Some v ∧
    length plane = Z.to_nat n ∧ length row = Z.to_nat n ∧
    Forall (λ row : list Z, length row = Z.to_nat n) plane.
Proof.
  intros [Hlen Hall] (Hx & Hy & Hz).
  destruct (lookup_lt_is_Some_2 cube (Z.to_nat (vector.x c))) as [plane Hp];
    [lia|].
  destruct (Forall_lookup_1 _ _ _ _ Hall Hp) as [Hlp Hrows].
  destruct (lookup_lt_is_Some_2 plane (Z.to_nat (vector.y c))) as [row Hr];
    [lia|].
  pose proof (Forall_lookup_1 _ _ _ _ Hrows Hr) as Hlr. simpl in Hlr.
  destruct (lookup_lt_is_Some_2 row (Z.to_nat (vector.z c))) as [v Hv];
    [lia|].
  by exists plane, row, v.
Qed.

Lemma cube_get_in n cube c :
  cube_wf n cube → cell_ok n c → ∃ v, cube_get cube c = Ok v.
Proof.
  intros Hwf Hc.
  destruct (cube_wf_lookup _ _ _ Hwf Hc) as (plane & row & v & Hp & Hr & Hv & _).
  destruct Hc as (Hx & Hy & Hz).
  exists v. unfold cube_get.
  rewrite (py_index_lookup _ _ _ (proj1 Hx) Hp). simpl.
  rewrite (py_index_lookup _ _ _ (proj1 Hy) Hr). simpl.
  apply py_index_lookup; [lia|done].
Qed.

Lemma cube_set_in n cube c v :
  cube_wf n cube → cell_ok n c →
  ∃ cube', cube_set cube c v = Ok cube' ∧ cube_wf n cube' ∧
    ∀ c', cell_ok n c' →
      cube_get cube' c' = if decide (c' = c) then Ok v else cube_get cube c'.
Proof.
  intros Hwf Hc.
  destruct (cube_wf_lookup _ _ _ Hwf Hc)
    as (plane & row & w & Hp & Hr & Hw & Hlp & Hlr & Hrows).
  pose proof Hc as (Hx & Hy & Hz). destruct Hwf as [Hlen Hall].
  eexists. split; [|split].
  - unfold cube_set.
    rewrite (py_index_lookup _ _ _ (proj1 Hx) Hp). simpl.
    rewrite (py_index_lookup _ _ _ (proj1 Hy) Hr). simpl.
    rewrite py_setitem_insert by lia. simpl.
    rewrite py_setitem_insert by lia. simpl.
    apply py_setitem_insert. lia.
  - split; [by rewrite length_insert|].
    apply Forall_insert; [done|]. split; [by rewrite length_insert|].
    apply Forall_insert; [done|]. by rewrite length_insert.
  - intros c' Hc'. pose proof Hc' as (Hx' & Hy' & Hz').
    unfold cube_get.
    destruct (decide (vector.x c' = vector.x c)) as [Ex|Ex].
    + rewrite Ex.
      rewrite (py_index_lookup _ _ (<[Z.to_nat (vector.y c) :=
                 <[Z.to_nat (vector.z c) := v]> row]> plane) (proj1 Hx))
        by (apply list_lookup_insert_eq; lia).
      rewrite (py_index_lookup _ _ _ (proj1 Hx) Hp). simpl.
      destruct (decide (vector.y c' = vector.y c)) as [Ey|Ey].
      * rewrite Ey.
        rewrite (py_index_lookup _ _ (<[Z.to_nat (vector.z c) := v]> row)
                   (proj1 Hy)) by (apply list_lookup_insert_eq; lia).
        rewrite (py_index_lookup _ _ _ (proj1 Hy) Hr). simpl.
        destruct (decide (vector.z c' = vector.z c)) as [Ez|Ez].
        -- rewrite decide_True by (destruct c, c'; simpl in *; congruence).
           apply py_index_lookup; [lia|]. rewrite Ez.
           apply list_lookup_insert_eq. lia.
        -- rewrite decide_False by congruence.
           unfold py_index. rewrite length_insert.
           destruct (decide (vector.z c' < 0)); [lia|].
           destruct (decide _); [|done].
           rewrite list_lookup_insert_ne by lia. done.
      * rewrite decide_False by congruence.
        destruct (lookup_lt_is_Some_2 plane (Z.to_nat (vector.y c')))
          as [row' Hr']; [lia|].
        rewrite (py_index_lookup _ _ row' (proj1 Hy'))
          by (rewrite list_lookup_insert_ne by lia; done).
        by rewrite (py_index_lookup _ _ _ (proj1 Hy') Hr').
    + rewrite decide_False by congruence.
      destruct (lookup_lt_is_Some_2 cube (Z.to_nat (vector.x c')))
        as [plane' Hp']; [lia|].
      rewrite (py_index_lookup _ _ plane' (proj1 Hx'))
        by (rewrite list_lookup_insert_ne by lia; done).
      by rewrite (py_index_lookup _ _ _ (proj1 Hx') Hp').
Qed.

(** ** Vectors *)

Ltac vec :=
  repeat match goal with v : Vector3D |- _ => destruct v end;
  unfold vector.__add__, vector.__rmul__, cell_ok, vmax, vmin in *;
  simpl in *; try f_equal; try lia.

Lemma vadd_0 (b d : Vector3D) : b +v 0 *v d = b.
Proof. vec. Qed.

Lemma vadd_succ (b d : Vector3D) (k : Z) :
  b +v k *v d +v d = b +v (k + 1) *v d.
Proof. vec. Qed.

Lemma baseDirections_cases (d : Vector3D) :
  d ∈ baseDirections →
  d = mkVector3D 1 0 0 ∨ d = mkVector3D 0 1 0 ∨ d = mkVector3D 0 0 1 ∨
  d = mkVector3D (-1) 0 0 ∨ d = mkVector3D 0 (-1) 0 ∨ d = mkVector3D 0 0 (-1).
Proof.
  unfold baseDirections. intros H.
  repeat (apply elem_of_cons in H as [H|H]; [tauto|]).
  by apply elem_of_nil in H.
Qed.

Lemma offset_inj (b d : Vector3D) (j k : Z) :
  d ∈ baseDirections → b +v j *v d = b +v k *v d → j = k.
Proof.
  intros Hd H. apply baseDirections_cases in Hd.
  destruct b; unfold vector.__add__, vector.__rmul__ in H; simpl in H.
  destruct_or!; subst d; simpl in H; injection H; lia.
Qed.

(** ** The head *)

Lemma dict_get_Ok {V} (m : gmap Vector3D V) k v :
  dict_get m k = Ok v ↔ m !! k = Some v.
Proof. unfold dict_get. destruct (m !! k); naive_solver. Qed.

Lemma change_direction_Ok h h' :
  change_direction h = Ok h' →
  direction h ∈ baseDirections ∧ base h' = base h ∧
  _old_direction h' = Some (direction h).
Proof.
  unfold change_direction. intros H. inv_bind H. simplify_eq. simpl.
  apply dict_get_Ok in Ha. split; [|done].
  apply jointDirections_keys. by exists a.
Qed.

Lemma rotate_to_Ok h js h' :
  rotate_to h js = Ok h' → base h' = base h.
Proof.
  unfold rotate_to. destruct (_old_direction h); [|done].
  intros H. inv_bind H. by simplify_eq.
Qed.

(** ** Writing cells *)

Lemma _cube_set_offset_frame self i v self' :
  _cube_set_offset self i v = Ok self' → ∃ cube', self' = set_cube self cube'.
Proof. unfold _cube_set_offset. intros H. inv_bind H. simplify_eq. eauto. Qed.

Lemma for_in_set_frame (l : list Z) v self self' :
  for_in l (λ i s, _cube_set_offset s i v) self = Ok self' →
  ∃ cube', self' = set_cube self cube'.
Proof.
  revert self. induction l as [|i l IH]; intros self H; simpl in H.
  - assert (self' = self) as -> by congruence.
    exists (_cube self). by destruct self.
  - inv_bind H. apply _cube_set_offset_frame in Ha as [c1 ->].
    apply IH in H as [c2 ->]. by exists c2.
Qed.

Lemma _cube_set_offset_in n self i v :
  cube_wf n (_cube self) →
  cell_ok n (base (head self) +v i *v direction (head self)) →
  ∃ cube', _cube_set_offset self i v = Ok (set_cube self cube') ∧
    cube_wf n cube' ∧
    ∀ c, cell_ok n c →
      cube_get cube' c =
        if decide (c = base (head self) +v i *v direction (head self))
        then Ok v else cube_get (_cube self) c.
Proof.
  intros Hwf Hc.
  destruct (cube_set_in _ _ _ v Hwf Hc) as (cube' & Hset & Hwf' & Hget).
  exists cube'. unfold _cube_set_offset. by rewrite Hset.
Qed.

Lemma for_in_set_in n (l : list Z) v self :
  cube_wf n (_cube self) →
  (∀ i, i ∈ l → cell_ok n (base (head self) +v i *v direction (head self))) →
  ∃ cube', for_in l (λ i s, _cube_set_offset s i v) self
             = Ok (set_cube self cube') ∧
    cube_wf n cube' ∧
    ∀ c, cell_ok n c →
      cube_get cube' c =
        if decide (c ∈ (λ i, base (head self) +v i *v direction (head self))
                       <$> l)
        then Ok v else cube_get (_cube self) c.
Proof.
  revert self. induction l as [|i l IH]; intros self Hwf Hl.
  - exists (_cube self). split; [by destruct self|]. split; [done|].
    intros c _. rewrite decide_False; [done|]. apply not_elem_of_nil.
  - destruct (_cube_set_offset_in n self i v Hwf) as (c1 & E1 & Hwf1 & Hget1).
    { apply Hl. left. }
    destruct (IH (set_cube self c1) Hwf1) as (c2 & E2 & Hwf2 & Hget2).
    { intros j Hj. apply Hl. by right. }
    exists c2. split; [|split; [done|]].
    { cbn [for_in]. rewrite E1. exact E2. }
    intros c Hc. rewrite (Hget2 c Hc). rewrite fmap_cons.
    change (head (set_cube self c1)) with (head self).
    change (_cube (set_cube self c1)) with c1.
    destruct (decide (c ∈ _ <$> l)) as [Hin|Hin].
    + rewrite decide_True; [done|]. by right.
    + rewrite (Hget1 c Hc). destruct (decide (c = _)) as [->|Hne].
      * rewrite decide_True; [done|]. left.
      * rewrite decide_False; [done|]. rewrite elem_of_cons. by intros [?|?].
Qed.

(** ** Counting free steps *)

Lemma step_in_cube n h pos :
  direction h ∈ baseDirections → cell_ok n pos →
  (if bool_decide (get_sign h = 1)
   then bool_decide (vmax (pos +v direction h) < n)
   else bool_decide (vmin (pos +v direction h) >= 0)) = true →
  cell_ok n (pos +v direction h).
Proof.
  intros Hd Hok. apply baseDirections_cases in Hd.
  destruct h as [b d o], pos as [px py pz]. simpl in *.
  unfold get_sign, vmax, vmin, cell_ok in *. simpl in *.
  destruct_or!; subst d; simpl;
    repeat case_bool_decide; repeat case_decide; intros; try done; lia.
Qed.

Lemma _nsteps_loop_free n fuel self up pos k a :
  cubesize self = n → cube_wf n (_cube self) →
  direction (head self) ∈ baseDirections →
  up = bool_decide (get_sign (head self) = 1) →
  pos = base (head self) +v k *v direction (head self) →
  cell_ok n pos → 0 ≤ k →
  (∀ j, 1 ≤ j ≤ k →
     cell_ok n (base (head self) +v j *v direction (head self)) ∧
     cube_get (_cube self) (base (head self) +v j *v direction (head self))
       = Ok POS_FREE) →
  _nsteps_loop fuel self up pos k = Ok a →
  k ≤ a ∧
  ∀ j, 1 ≤ j ≤ a →
     cell_ok n (base (head self) +v j *v direction (head self)) ∧
     cube_get (_cube self) (base (head self) +v j *v direction (head self))
       = Ok POS_FREE.
Proof.
  intros Hn Hwf Hd Hup. revert pos k.
  induction fuel as [|fuel IH]; intros pos k Hpos Hok Hk Hfree; simpl;
    (destruct (if up then _ else _) eqn:Hcond;
       [|intros; simplify_eq; split; [lia|done]]);
    intros H; inv_bind H;
    (destruct (decide (a0 = POS_FREE)) as [->|?];
       [|simplify_eq; split; [lia|done]]); [done|].
  assert (cell_ok n (pos +v direction (head self))) as Hok'.
  { rewrite Hn in Hcond. subst up. by apply (step_in_cube n (head self)). }
  assert (pos +v direction (head self)
          = base (head self) +v (k + 1) *v direction (head self)) as Hpos'.
  { rewrite Hpos. apply vadd_succ. }
  apply IH in H; [split; [lia|apply H]|done|done|lia|].
  intros j Hj. destruct (decide (j = k + 1)) as [->|?]; [|apply Hfree; lia].
  unfold _cube_get_offset in Ha. rewrite <-Hpos' in Ha |- *. done.
Qed.

Lemma _nsteps_free n fuel self a :
  cubesize self = n → cube_wf n (_cube self) →
  direction (head self) ∈ baseDirections →
  cell_ok n (base (head self)) →
  _nsteps fuel self = Ok a →
  0 ≤ a ∧
  ∀ j, 1 ≤ j ≤ a →
     cell_ok n (base (head self) +v j *v direction (head self)) ∧
     cube_get (_cube self) (base (head self) +v j *v direction (head self))
       = Ok POS_FREE.
Proof.
  intros Hn Hwf Hd Hok. unfold _nsteps.
  apply (_nsteps_loop_free n); try done.
  - by rewrite vadd_0.
  - intros j Hj. lia.
Qed.

(** ** The cases of one pass through the loop *)

Lemma restore_cases self path self' path' :
  restore self path = Ok (self', path') →
  ∃ h c self1 js h',
    path = path' ++ [h] ∧
    py_index (chain self) (_pos self - 1) = Ok c ∧
    for_in (range 1 (c + 1)) (λ i s, _cube_set_offset s i POS_FREE)
           (set_head (set_pos self (_pos self - 1)) h) = Ok self1 ∧
    _cube_get_offset self1 0 = Ok js ∧
    rotate_to (head self1) ((js + 1) `mod` N_JNTS) = Ok h' ∧
    _cube_set_offset (set_head self1 h') 0 (js + 1) = Ok self'.
Proof.
  unfold restore. cbv zeta. intros H.
  apply bind_Ok in H as ([p h] & Hpop & H). apply list_pop_Ok in Hpop.
  inv_bind H. simplify_eq. by exists h, a, a0, a1, a2.
Qed.

Lemma py_index_raises {A} (l : list A) i e :
  py_index l i = Raise e → e = IndexError.
Proof.
  unfold py_index. destruct (decide _); [|congruence].
  destruct (_ !! _); congruence.
Qed.

Lemma rotate_to_AssertionError h js :
  rotate_to h js = Raise AssertionError → _old_direction h = None.
Proof.
  unfold rotate_to. destruct (_old_direction h) as [old|]; [|done].
  unfold dict_get. destruct (_ !! _) as [l|]; simpl; [|done].
  destruct (py_index l js) eqn:E; simpl; try done.
  apply py_index_raises in E. congruence.
Qed.

Lemma loop_body_cases fuel self path r :
  loop_body fuel self path = Ok r →
  ∃ js, _cube_get_offset self 0 = Ok js ∧
    ((js < N_JNTS ∧ _old_direction (head self) = None ∧ r = ReturnNone self)
     ∨ (js < N_JNTS ∧ ∃ h' self',
          rotate_to (head self) ((js + 1) `mod` N_JNTS) = Ok h' ∧
          _cube_set_offset (set_head self h') 0 (js + 1) = Ok self' ∧
          r = Continue self' path)
     ∨ (js < N_JNTS ∧ ∃ c a self1 self2 h',
          py_index (chain self) (_pos self) = Ok c ∧
          _nsteps fuel self = Ok a ∧ c ≤ a ∧
          for_in (range 1 c) (λ i s, _cube_set_offset s i POS_USED) self
            = Ok self1 ∧
          _cube_set_offset self1 c JOINT0 = Ok self2 ∧
          change_direction (move (head self2) c) = Ok h' ∧
          r = Continue (set_pos (set_head self2 h') (_pos self2 + 1))
                       (path ++ [head self2]))
     ∨ (js >= N_JNTS ∧ _pos self = 1 ∧ r = ReturnNone self)
     ∨ (js >= N_JNTS ∧ _pos self ≠ 1 ∧ ∃ self' path',
          restore self path = Ok (self', path') ∧ r = Continue self' path')).
Proof.
  unfold loop_body. intros H.
  apply bind_Ok in H as (js & Hjs & H). exists js. split; [done|].
  unfold _joint_wrapped in H. case_bool_decide as Hw; simpl in H.
  - right. right. right. destruct (decide (_pos self = 1)).
    + left. by simplify_eq.
    + right. apply bind_Ok in H as ([s p] & Hr & H). simplify_eq.
      split; [done|]. split; [done|]. by exists s, p.
  - assert (js < N_JNTS) by lia.
    apply bind_Ok in H as (c & Hc & H). apply bind_Ok in H as (a & Ha & H).
    destruct (decide (a < c)).
    + destruct (rotate_to _ _) as [h'|[]|] eqn:Hrot; try done.
      * right. left. split; [done|].
        apply bind_Ok in H as (s & Hs & H). simplify_eq. by exists h', s.
      * left. apply rotate_to_AssertionError in Hrot. by simplify_eq.
    + right. right. left. split; [done|]. cbv zeta in H.
      apply bind_Ok in H as (s1 & Hs1 & H).
      apply bind_Ok in H as (s2 & Hs2 & H).
      apply bind_Ok in H as (h' & Hh' & H). simplify_eq.
      exists c, a, s1, s2, h'. repeat split; try done. lia.
Qed.

Lemma LenInv_set_cube ch ps self path cube :
  LenInv ch ps self path → LenInv ch ps (set_cube self cube) path.
Proof. by intros []. Qed.

Lemma LenInv_set_head ch ps self path h :
  LenInv ch ps self path → LenInv ch ps (set_head self h) path.
Proof. by intros []. Qed.

Lemma restore_LenInv ch ps self path self' path' :
  LenInv ch ps self path → restore self path = Ok (self', path') →
  LenInv ch ps self' path'.
Proof.
  intros [Hc Hl Hp Hpos Hle] H.
  apply restore_cases in H
    as (h & c & self1 & js & h' & -> & Hidx & Hfree & Hjs & Hrot & Hset).
  apply for_in_set_frame in Hfree as [c1 ->].
  apply _cube_set_offset_frame in Hset as [c2 ->].
  rewrite length_app in Hpos, Hle. simpl in *.
  split; simpl; try done; lia.
Qed.

Lemma loop_body_LenInv ch ps fuel self path r :
  LenInv ch ps self path → loop_body fuel self path = Ok r →
  match r with
  | Continue self' path' => LenInv ch ps self' path'
  | ReturnNone self' => self' = self
  end.
Proof.
  intros Hinv H. apply loop_body_cases in H as (js & Hjs & H).
  destruct H as [(_ & _ & ->)|[(_ & h' & s & Hrot & Hset & ->)|
    [(_ & c & a & s1 & s2 & h' & Hc & Ha & Hle & Hs1 & Hs2 & Hh' & ->)|
    [(_ & _ & ->)|(_ & _ & s & p & Hr & ->)]]]]; try done.
  - apply _cube_set_offset_frame in Hset as [c1 ->].
    by apply LenInv_set_cube, LenInv_set_head.
  - apply for_in_set_frame in Hs1 as [c1 ->].
    apply _cube_set_offset_frame in Hs2 as [c2 ->].
    destruct Hinv as [Hch Hl Hp Hpos Hlen]. rewrite Hch, Hpos in Hc.
    apply py_index_Ok_nonneg in Hc; [|lia]. rewrite Nat2Z.id in Hc.
    apply lookup_lt_Some in Hc.
    split; simpl; try done; rewrite length_app; simpl; lia.
  - by apply (restore_LenInv ch ps self path).
Qed.

Lemma while_loop_LenInv ch ps fuel self path o self' :
  LenInv ch ps self path → while_loop fuel self path = Ok (o, self') →
  chain self' = ch ∧ _chainlength self' = Z.of_nat (length ch) ∧
  _paths self' = ps ∧
  match o with
  | Some p => length p = length ch ∧ _pos self' = Z.of_nat (length ch)
  | None => True
  end.
Proof.
  revert self path. induction fuel as [|fuel IH]; intros self path Hinv;
    simpl; destruct (decide _) as [Hlt|Hge]; try done.
  - intros; simplify_eq. destruct Hinv. repeat split; try done; lia.
  - intros H. apply bind_Ok in H as (r & Hr & H).
    apply (loop_body_LenInv ch ps) in Hr; [|done].
    destruct r as [s p|s]; [by eapply IH|].
    simplify_eq. by destruct Hinv.
  - intros; simplify_eq. destruct Hinv. repeat split; try done; lia.
Qed.

Lemma py_index_last {A} (l : list A) (a : A) : py_index (l ++ [a]) (-1) = Ok a.
Proof.
  unfold py_index. rewrite length_app. simpl.
  destruct (decide (-1 < 0)); [|lia]. destruct (decide _); [|lia].
  replace (Z.to_nat _) with (length l + 0)%nat by lia.
  by rewrite lookup_app_r, Nat.add_comm, Nat.add_sub by lia.
Qed.

Lemma py_index_last_Ok {A} (l : list A) (a : A) :
  py_index l (-1) = Ok a → ∃ l', l = l' ++ [a].
Proof.
  destruct l as [|b l _] using rev_ind; [done|].
  rewrite py_index_last. intros; simplify_eq. eauto.
Qed.

Lemma _backtrack_LenInv ch fuel self o self' :
  chain self = ch → _chainlength self = Z.of_nat (length ch) →
  Forall (λ p : Path, length p = length ch) (_paths self) →
  _pos self = 0 ∨ _pos self = Z.of_nat (length ch) →
  _backtrack fuel self = Ok (o, self') →
  chain self' = ch ∧ _chainlength self' = Z.of_nat (length ch) ∧
  _paths self' = _paths self ∧
  match o with
  | Some p => length p = length ch ∧ _pos self' = Z.of_nat (length ch)
  | None => True
  end.
Proof.
  intros Hch Hl Hps Hpos. unfold _backtrack. destruct (decide _) as [H0|H0].
  - intros H. apply bind_Ok in H as (s & Hs & H).
    apply _cube_set_offset_frame in Hs as [c1 ->].
    apply (while_loop_LenInv ch (_paths self)) in H; [done|].
    split; simpl; try done. lia.
  - intros H. apply bind_Ok in H as (p & Hp & H).
    apply bind_Ok in H as ([s q] & Hr & H).
    apply py_index_last_Ok in Hp as [ps Hp].
    assert (length p = length ch) as Hlen.
    { rewrite Hp in Hps. apply Forall_app in Hps as [_ Hps].
      rewrite Forall_singleton in Hps. exact Hps. }
    apply (restore_LenInv ch (_paths self)) in Hr.
    + by apply (while_loop_LenInv ch (_paths self)) in H.
    + split; try done; lia.
Qed.

Lemma solve_loop_LenInv ch fuel self o self' :
  chain self = ch → _chainlength self = Z.of_nat (length ch) →
  Forall (λ p : Path, length p = length ch) (_paths self) →
  match o with
  | Some p => length p = length ch ∧ _pos self = Z.of_nat (length ch)
  | None => True
  end →
  solve_loop fuel self o = Ok self' →
  Forall (λ p : Path, length p = length ch) (_paths self').
Proof.
  revert self o. induction fuel as [|fuel IH]; intros self [p|] Hch Hl Hps Ho;
    simpl; try done; try (by intros; simplify_eq).
  intros H. apply bind_Ok in H as ([o s] & Hb & H).
  destruct Ho as [Hp Hpos].
  apply (_backtrack_LenInv ch) in Hb as (? & ? & Hps' & ?); simpl; try done.
  - apply IH in H; try done. rewrite Hps'. simpl.
    apply Forall_app. split; [done|]. by apply Forall_singleton.
  - apply Forall_app. split; [done|]. by apply Forall_singleton.
  - by right.
Qed.

(** C9: every solution in the list that [solve] returns for a fresh engine
    has exactly [len(chain)] snapshots. *)
Theorem solutions_have_chain_length fuel chain cubesize head paths self' :
  solve fuel (Backtrack_init chain cubesize head) = Ok (paths, self') →
  Forall (λ p : Path, length p = length chain) paths.
Proof.
  unfold solve. simpl. intros H.
  apply bind_Ok in H as ([o s] & Hb & H). apply bind_Ok in H as (s' & Hl & H).
  simplify_eq.
  apply (_backtrack_LenInv chain) in Hb as (? & ? & Hps & ?); simpl; try done.
  - apply (solve_loop_LenInv chain) in Hl; try done. by rewrite Hps.
  - by left.
Qed.

Lemma solutions_have_chain_length_witness :
  ∃ paths self',
    solve 1000 (Backtrack_init chain_slices 3 start000) = Ok (paths, self') ∧
    length paths = 2%nat ∧
    Forall (λ p : Path, length p = length chain_slices) paths.
Proof.
  eexists _, _. split; [by vm_compute|]. split; [done|].
  eapply (solutions_have_chain_length 1000 chain_slices 3 start000).
  by vm_compute.
Defined.

(** ** Walks *)

Lemma zip_with_snoc {A B C} (g : A → B → C) (l : list A) (k : list B) a b :
  k !! length l = Some b →
  zip_with g (l ++ [a]) k = zip_with g l k ++ [g a b].
Proof.
  revert k. induction l as [|a' l IH]; intros [|b' k] H; simpl in H;
    try done.
  - by simplify_eq.
  - simpl. by rewrite (IH k H).
Qed.

Lemma occupied_snoc s ch path h c :
  ch !! length path = Some c →
  occupied s ch (path ++ [h]) = occupied s ch path ++ slice_cells h c.
Proof.
  intros H. unfold occupied. rewrite (zip_with_snoc _ _ _ _ c H).
  rewrite concat_app. simpl. by rewrite app_nil_r.
Qed.

Lemma linked_snoc s ch path h e :
  linked s ch (path ++ [h]) e ↔
  ∃ c, ch !! length path = Some c ∧ linked s ch path (base h) ∧
       e = base h +v c *v direction h.
Proof.
  revert s ch. induction path as [|g path IH]; intros s [|c0 ch]; simpl.
  - split; [done|]. intros (c & Hc & _). discriminate Hc.
  - split.
    + intros [? ?]. by exists c0.
    + intros (c & ? & ? & ?). by simplify_eq.
  - split; [done|]. intros (c & Hc & _). discriminate Hc.
  - rewrite IH. split.
    + intros (? & c & ? & ? & ?). by exists c.
    + intros (c & ? & [? ?] & ?). split; [done|]. by exists c.
Qed.

Lemma elem_of_slice_cells h c x :
  x ∈ slice_cells h c ↔ ∃ k, 1 ≤ k ≤ c ∧ x = base h +v k *v direction h.
Proof.
  unfold slice_cells. rewrite list_elem_of_fmap. split.
  - intros (k & -> & Hk). apply elem_of_range in Hk. exists k. split; [lia|done].
  - intros (k & Hk & ->). exists k. split; [done|]. apply elem_of_range. lia.
Qed.

Lemma NoDup_slice_cells h c :
  direction h ∈ baseDirections → NoDup (slice_cells h c).
Proof.
  intros Hd. apply NoDup_fmap_2_strong; [|apply NoDup_range].
  intros j k _ _. by apply offset_inj.
Qed.

Lemma linked_end_occupied s ch path e :
  Forall (λ c, 0 < c) ch → linked s ch path e → e ∈ occupied s ch path.
Proof.
  intros Hch. destruct path as [|h path _] using rev_ind.
  - simpl. intros ->. left.
  - rewrite linked_snoc. intros (c & Hc & _ & ->).
    rewrite (occupied_snoc _ _ _ _ _ Hc). apply elem_of_app. right.
    apply elem_of_slice_cells. exists c. split; [|done].
    pose proof (Forall_lookup_1 _ _ _ _ Hch Hc). simpl in *. lia.
Qed.

Lemma swept_occupied s ch path e :
  linked s ch path e → path ≠ [] → swept ch path = occupied s ch path.
Proof.
  destruct path as [|h path]; [done|]. destruct ch as [|c ch]; [done|].
  simpl. by intros [-> _] _.
Qed.

(** ** The invariant of the search loop *)

Section invariant.
Variables (n : Z) (ch : list Z) (s : Vector3D).
Hypothesis Hch : Forall (λ c, 0 < c) ch.

Lemma Inv_head_cell ps self path :
  Inv n ch s ps self path →
  cell_ok n (base (head self)) ∧
  ∃ js, cube_get (_cube self) (base (head self)) = Ok js ∧ POS_FREE < js.
Proof.
  intros [_ G]. destruct G as [Gsize Gwf Gvals Glink Gnodup Gocc].
  destruct (Gocc (base (head self))) as [Hok Hne].
  { by apply linked_end_occupied. }
  split; [done|].
  destruct (cube_get_in _ _ _ Gwf Hok) as [js Hjs].
  exists js. split; [done|].
  pose proof (Gvals _ _ Hok Hjs).
  assert (js ≠ POS_FREE) by congruence. lia.
Qed.

(** Overwriting the cell under the head with a value that is not
    [POS_FREE], after turning the head on the spot. *)
Lemma write_head_cell_Inv ps self path h' v self' :
  Inv n ch s ps self path →
  base h' = base (head self) → POS_FREE < v →
  _cube_set_offset (set_head self h') 0 v = Ok self' →
  Inv n ch s ps self' path.
Proof.
  intros HI Hb Hv Hset.
  destruct (Inv_head_cell _ _ _ HI) as [Hok _]. destruct HI as [L G].
  destruct G as [Gsize Gwf Gvals Glink Gnodup Gocc].
  destruct (_cube_set_offset_in n (set_head self h') 0 v)
    as (c1 & E & Hwf1 & Hget1); simpl; [done|by rewrite vadd_0, Hb|].
  rewrite E in Hset. simplify_eq. simpl in Hget1.
  split; [by apply LenInv_set_cube, LenInv_set_head|].
  split; simpl; try done.
  - intros c w Hc. rewrite (Hget1 c Hc). case_decide; [|by apply Gvals].
    intros [= <-]. lia.
  - by rewrite Hb.
  - intros c Hc. destruct (Gocc c Hc) as [Hcok Hne].
    split; [done|]. rewrite (Hget1 c Hcok). case_decide; [|done].
    intros [= ->]. lia.
Qed.

Lemma rotate_Inv ps self path js k h' self' :
  Inv n ch s ps self path →
  _cube_get_offset self 0 = Ok js →
  rotate_to (head self) k = Ok h' →
  _cube_set_offset (set_head self h') 0 (js + 1) = Ok self' →
  Inv n ch s ps self' path.
Proof.
  intros HI Hjs Hrot Hset.
  destruct (Inv_head_cell _ _ _ HI) as (_ & js' & Hjs' & Hlt).
  unfold _cube_get_offset in Hjs. rewrite vadd_0, Hjs' in Hjs.
  simplify_eq. apply rotate_to_Ok in Hrot.
  eapply write_head_cell_Inv; [done|done| |done]. lia.
Qed.
End invariant.

Section search.
Variables (n : Z) (ch : list Z) (s : Vector3D).
Hypothesis Hch : Forall (λ c, 0 < c) ch.

(** Laying a slice. *)
Lemma place_Geo ps fuel self path c a self1 self2 h' :
  Inv n ch s ps self path →
  py_index (chain self) (_pos self) = Ok c →
  _nsteps fuel self = Ok a → c ≤ a →
  for_in (range 1 c) (λ i s, _cube_set_offset s i POS_USED) self = Ok self1 →
  _cube_set_offset self1 c JOINT0 = Ok self2 →
  change_direction (move (head self2) c) = Ok h' →
  Geo n ch s (set_pos (set_head self2 h') (_pos self2 + 1))
      (path ++ [head self2]).
Proof.
  intros HI Hc Ha Hle Hs1 Hs2 Hh'.
  destruct (Inv_head_cell n ch s Hch _ _ _ HI) as [Hok _].
  destruct HI as [L G].
  destruct L as [Lchain Lclen Lpaths Lpos Lle], G as [Gsize Gwf Gvals Glink Gnodup Gocc].
  rewrite Lchain, Lpos in Hc.
  apply py_index_Ok_nonneg in Hc; [|lia]. rewrite Nat2Z.id in Hc.
  pose proof (Forall_lookup_1 _ _ _ _ Hch Hc) as Hc0. simpl in Hc0.
  destruct (for_in_set_frame _ _ _ _ Hs1) as [c1' ->].
  destruct (_cube_set_offset_frame _ _ _ _ Hs2) as [c2' ->]. simpl in *.
  apply change_direction_Ok in Hh' as (Hd & Hb' & _). simpl in *.
  destruct (_nsteps_free n fuel self a) as [_ Hfree]; try done.
  destruct (for_in_set_in n (range 1 c) POS_USED self) as (c1 & E1 & Hwf1 & Hget1);
    [done| |].
  { intros i Hi. apply elem_of_range in Hi. apply Hfree. lia. }
  rewrite E1 in Hs1. injection Hs1 as <-.
  destruct (_cube_set_offset_in n (set_cube self c1) c JOINT0)
    as (c2 & E2 & Hwf2 & Hget2); [done|apply Hfree; simpl; lia|].
  rewrite E2 in Hs2. injection Hs2 as <-. simpl in *.
  assert (∀ x, x ∈ slice_cells (head self) c →
            cell_ok n x ∧ cube_get (_cube self) x = Ok POS_FREE ∧
            cube_get c2 x ≠ Ok POS_FREE) as Hslice.
  { intros x Hx. apply elem_of_slice_cells in Hx as (k & Hk & ->).
    destruct (Hfree k) as [Hkok Hkfree]; [lia|]. split; [done|].
    split; [done|]. rewrite (Hget2 _ Hkok). case_decide; [done|].
    rewrite (Hget1 _ Hkok). rewrite decide_True; [done|].
    apply list_elem_of_fmap. exists k. split; [done|].
    apply elem_of_range.
    assert (k ≠ c) by (intros ->; done). lia. }
  assert (∀ x, x ∈ occupied s ch path → x ∉ slice_cells (head self) c)
    as Hdisj.
  { intros x Hx Hx'. destruct (Gocc x Hx) as [_ Hne].
    by destruct (Hslice x Hx') as (_ & ? & _). }
  split; simpl; try done.
  - intros x v Hx. rewrite (Hget2 _ Hx). case_decide; [by intros [= <-]|].
    rewrite (Hget1 _ Hx). case_decide; [by intros [= <-]|].
    by apply Gvals.
  - apply linked_snoc. exists c. by rewrite Hb'.
  - rewrite (occupied_snoc _ _ _ _ _ Hc). apply NoDup_app.
    split; [done|]. split; [done|]. by apply NoDup_slice_cells.
  - intros x. rewrite (occupied_snoc _ _ _ _ _ Hc), elem_of_app.
    intros [Hx|Hx].
    + destruct (Gocc x Hx) as [Hxok Hne]. split; [done|].
      rewrite (Hget2 _ Hxok). rewrite decide_False.
      * rewrite (Hget1 _ Hxok). rewrite decide_False; [done|].
        intros Hin. apply (Hdisj x Hx).
        apply list_elem_of_fmap in Hin as (k & -> & Hk).
        apply elem_of_range in Hk.
        apply elem_of_slice_cells. exists k. split; [lia|done].
      * intros ->. apply (Hdisj _ Hx).
        apply elem_of_slice_cells. exists c. split; [lia|done].
    + destruct (Hslice x Hx) as (? & _ & ?). done.
Qed.

(** Taking the last slice back and turning its joint. *)
Lemma restore_Inv ps self path self' path' :
  Inv n ch s ps self path →
  restore self path = Ok (self', path') →
  Inv n ch s ps self' path'.
Proof.
  intros HI Hr. pose proof HI as [L G].
  pose proof (restore_LenInv _ _ _ _ _ _ L Hr) as L'.
  apply restore_cases in Hr
    as (h & c & self1 & js & h' & -> & Hidx & Hfree & Hjs & Hrot & Hset).
  destruct G as [Gsize Gwf Gvals Glink Gnodup Gocc].
  apply linked_snoc in Glink as (c' & Hc & Hlink & Hend).
  assert (c' = c) as ->.
  { destruct L as [Lchain Lclen Lpaths Lpos Lle].
    rewrite Lchain, Lpos, length_app in Hidx. simpl in Hidx.
    apply py_index_Ok_nonneg in Hidx; [|lia].
    replace (Z.to_nat _) with (length path') in Hidx by lia. congruence. }
  rewrite (occupied_snoc _ _ _ _ _ Hc) in Gnodup, Gocc.
  apply NoDup_app in Gnodup as (Hnd & Hdisj & _).
  destruct (for_in_set_in n (range 1 (c + 1)) POS_FREE
              (set_head (set_pos self (_pos self - 1)) h))
    as (c1 & E1 & Hwf1 & Hget1); [done| |].
  { intros i Hi. simpl. apply Gocc, elem_of_app. right.
    apply elem_of_slice_cells. exists i. apply elem_of_range in Hi.
    split; [lia|done]. }
  rewrite E1 in Hfree. injection Hfree as <-. simpl in Hget1.
  eapply (rotate_Inv n ch s Hch ps _ path' js);
    [|exact Hjs|exact Hrot|exact Hset].
  apply _cube_set_offset_frame in Hset as [c2 ->].
  split.
  - destruct L'. by split.
  - split; simpl; try done.
    + intros x v Hx. rewrite (Hget1 _ Hx). case_decide; [by intros [= <-]|].
      by apply Gvals.
    + intros x Hx. destruct (Gocc x) as [Hxok Hne];
        [apply elem_of_app; by left|].
      split; [done|]. rewrite (Hget1 _ Hxok).
      rewrite decide_False; [done|]. by apply Hdisj.
Qed.
End search.

Lemma restore_paths self path self' path' :
  restore self path = Ok (self', path') → _paths self' = _paths self.
Proof.
  intros H. apply restore_cases in H
    as (h & c & self1 & js & h' & -> & Hidx & Hfree & Hjs & Hrot & Hset).
  apply for_in_set_frame in Hfree as [c1 ->].
  by apply _cube_set_offset_frame in Hset as [c2 ->].
Qed.

Lemma loop_body_paths fuel self path r :
  loop_body fuel self path = Ok r →
  _paths match r with Continue s _ => s | ReturnNone s => s end = _paths self.
Proof.
  intros H. apply loop_body_cases in H as (js & Hjs & H).
  destruct H as [(_ & _ & ->)|[(_ & h' & s1 & Hrot & Hset & ->)|
    [(_ & c & a & s1 & s2 & h' & Hc & Ha & Hle & Hs1 & Hs2 & Hh' & ->)|
    [(_ & _ & ->)|(_ & _ & s1 & p & Hr & ->)]]]]; try done.
  - by apply _cube_set_offset_frame in Hset as [c1 ->].
  - apply for_in_set_frame in Hs1 as [c1 ->].
    by apply _cube_set_offset_frame in Hs2 as [c2 ->].
  - by apply restore_paths in Hr.
Qed.

Lemma while_loop_paths fuel self path o self' :
  while_loop fuel self path = Ok (o, self') → _paths self' = _paths self.
Proof.
  revert self path. induction fuel as [|fuel IH]; intros self path;
    simpl; destruct (decide _); try done; try (by intros; simplify_eq).
  intros H. apply bind_Ok in H as (r & Hr & H).
  apply loop_body_paths in Hr. destruct r as [s p|s]; simplify_eq; [|done].
  apply IH in H. congruence.
Qed.

Lemma _backtrack_paths fuel self o self' :
  _backtrack fuel self = Ok (o, self') → _paths self' = _paths self.
Proof.
  unfold _backtrack. destruct (decide _); intros H.
  - apply bind_Ok in H as (s1 & Hs1 & H).
    apply _cube_set_offset_frame in Hs1 as [c1 ->].
    by apply while_loop_paths in H.
  - apply bind_Ok in H as (p & Hp & H).
    apply bind_Ok in H as ([s1 p1] & Hr & H).
    apply restore_paths in Hr. apply while_loop_paths in H. congruence.
Qed.

Section solve.
Variables (n : Z) (ch : list Z) (s : Vector3D).
Hypothesis Hch : Forall (λ c, 0 < c) ch.

Lemma loop_body_Inv ps fuel self path self' path' :
  Inv n ch s ps self path →
  loop_body fuel self path = Ok (Continue self' path') →
  Inv n ch s ps self' path'.
Proof.
  intros HI H. pose proof HI as [L G].
  pose proof (loop_body_LenInv _ _ _ _ _ _ L H) as L'. simpl in L'.
  apply loop_body_cases in H as (js & Hjs & H).
  destruct H as [(_ & _ & ?)|[(_ & h' & s1 & Hrot & Hset & ?)|
    [(_ & c & a & s1 & s2 & h' & Hc & Ha & Hle & Hs1 & Hs2 & Hh' & ?)|
    [(_ & _ & ?)|(_ & _ & s1 & p & Hr & ?)]]]]; simplify_eq.
  - by eapply rotate_Inv.
  - split; [done|]. by eapply place_Geo.
  - by eapply restore_Inv.
Qed.

Lemma while_loop_Inv ps fuel self path q self' :
  Inv n ch s ps self path →
  while_loop fuel self path = Ok (Some q, self') →
  Inv n ch s ps self' q ∧ length q = length ch.
Proof.
  revert self path. induction fuel as [|fuel IH]; intros self path HI;
    simpl; destruct (decide _) as [Hlt|Hge]; try done.
  - intros; simplify_eq. split; [done|].
    destruct HI as [[] _]. lia.
  - intros H. apply bind_Ok in H as (r & Hr & H).
    destruct r as [s1 p|s1]; [|done].
    eapply IH; [|done]. by eapply loop_body_Inv.
  - intros; simplify_eq. split; [done|].
    destruct HI as [[] _]. lia.
Qed.

Lemma first_run_Inv self self' :
  fresh n ch s self → _cube_set_offset self 0 POS_USED = Ok self' →
  Inv n ch s (_paths self) self' [].
Proof.
  intros (Hc & Hl & Hp & Hn & Hwf & Hvals & Hb & Hs) Hset.
  destruct (_cube_set_offset_in n self 0 POS_USED)
    as (c1 & E & Hwf1 & Hget1); [done|by rewrite vadd_0, Hb|].
  rewrite E in Hset. injection Hset as <-. rewrite vadd_0, Hb in Hget1.
  split; split; simpl; try done; try lia.
  - intros c v Hcok. rewrite (Hget1 _ Hcok).
    case_decide; [by intros [= <-]|by apply Hvals].
  - apply NoDup_singleton.
  - intros c Hc1. apply list_elem_of_singleton in Hc1 as ->.
    split; [done|]. rewrite (Hget1 _ Hs). by rewrite decide_True.
Qed.

Lemma Inv_fresh ps self :
  Inv n ch s ps self [] → fresh n ch s self.
Proof.
  intros HI. destruct (Inv_head_cell n ch s Hch _ _ _ HI) as [Hok _].
  destruct HI as [[Lchain Lclen Lpaths Lpos Lle]
                  [Gsize Gwf Gvals Glink Gnodup Gocc]].
  simpl in *. rewrite Glink in Hok.
  unfold fresh. by split_and!.
Qed.

Lemma Inv_set_paths ps ps' self path :
  Inv n ch s ps self path → Inv n ch s ps' (set_paths self ps') path.
Proof. intros [[] []]. by split; split. Qed.

Lemma _backtrack_Inv fuel self q self' :
  fresh n ch s self ∨ (∃ ps p, _paths self = ps ++ [p] ∧
                        Inv n ch s (_paths self) self p) →
  _backtrack fuel self = Ok (Some q, self') →
  Inv n ch s (_paths self) self' q ∧ length q = length ch.
Proof.
  intros Hpre. unfold _backtrack. destruct (decide _) as [H0|H0].
  - intros H. apply bind_Ok in H as (s1 & Hs1 & H).
    eapply while_loop_Inv; [|done]. apply first_run_Inv; [|done].
    destruct Hpre as [?|(ps & p & Hps & HI)]; [done|].
    apply (Inv_fresh (_paths self)).
    destruct p; [done|]. destruct HI as [[] _]. simpl in *. lia.
  - intros H. apply bind_Ok in H as (p & Hp & H).
    apply bind_Ok in H as ([s1 p1] & Hr & H).
    destruct Hpre as [(_ & _ & ? & _)|(ps & p' & Hps & HI)]; [done|].
    rewrite Hps, py_index_last in Hp. injection Hp as <-.
    eapply while_loop_Inv; [|done]. by eapply restore_Inv.
Qed.

Lemma Inv_sweeps_cube ps self p :
  Inv n ch s ps self p → sweeps_cube n ch s p.
Proof.
  intros [_ [Gsize Gwf Gvals Glink Gnodup Gocc]]. unfold sweeps_cube.
  destruct p as [|h p].
  - split; [apply NoDup_nil_2|]. split; [apply Forall_nil_2|]. by exists s.
  - rewrite (swept_occupied s _ _ _ Glink) by done.
    split; [done|]. split; [|by eexists].
    apply Forall_forall. intros c Hc. by apply Gocc.
Qed.

Lemma solve_loop_Inv fuel self o self' :
  match o with
  | Some p => Inv n ch s (_paths self) self p
  | None => True
  end →
  Forall (sweeps_cube n ch s) (_paths self) →
  solve_loop fuel self o = Ok self' →
  Forall (sweeps_cube n ch s) (_paths self').
Proof.
  revert self o. induction fuel as [|fuel IH]; intros self [p|] Ho Hps;
    simpl; try done; try (by intros; simplify_eq).
  intros H. apply bind_Ok in H as ([o s1] & Hb & H).
  pose proof (_backtrack_paths _ _ _ _ Hb) as Hps1. simpl in Hps1.
  apply (Inv_set_paths _ (_paths self ++ [p])) in Ho.
  assert (Forall (sweeps_cube n ch s) (_paths s1)) as Hall.
  { rewrite Hps1. apply Forall_app. split; [done|]. apply Forall_singleton.
    by eapply Inv_sweeps_cube. }
  apply IH in H; try done. destruct o as [q|]; [|done].
  apply _backtrack_Inv in Hb as [HI _]; [by rewrite Hps1|].
  right. by exists (_paths self), p.
Qed.

Lemma solve_Inv fuel self paths self' :
  fresh n ch s self → _paths self = [] →
  solve fuel self = Ok (paths, self') →
  Forall (sweeps_cube n ch s) paths.
Proof.
  intros Hf Hps. unfold solve. rewrite decide_True by done. intros H.
  apply bind_Ok in H as ([o s1] & Hb & H).
  apply bind_Ok in H as (s2 & Hl & H). simplify_eq.
  pose proof (_backtrack_paths _ _ _ _ Hb) as Hps1.
  apply solve_loop_Inv in Hl; try done.
  - destruct o as [q|]; [|done].
    apply _backtrack_Inv in Hb as [HI _]; [by rewrite Hps1|by left].
  - rewrite Hps1, Hps. apply Forall_nil_2.
Qed.
End solve.

Lemma fresh_init ch n h :
  cell_ok n (base h) → fresh n ch (base h) (Backtrack_init ch n h).
Proof.
  intros Hs. unfold fresh. split_and!; try done; [apply cube_wf_init|].
  intros c v (Hx & Hy & Hz) H. unfold cube_get in H. simpl in H.
  apply bind_Ok in H as (plane & Hp & H). apply bind_Ok in H as (row & Hr & H).
  apply py_index_Ok_nonneg in Hp; [|lia].
  apply lookup_replicate in Hp as [-> _].
  apply py_index_Ok_nonneg in Hr; [|lia].
  apply lookup_replicate in Hr as [-> _].
  apply py_index_Ok_nonneg in H; [|lia].
  by apply lookup_replicate in H as [-> _].
Qed.

(** C1: with the starting head inside the cube and positive chain entries,
    the cells swept by each solution that [solve] returns, replayed from
    its snapshots over the chain, are pairwise distinct cells of the
    cube; the slices follow each other from the starting position, each
    snapshot standing where the slice before it ends. *)
Theorem solutions_sweep_distinct_cells fuel chain cubesize head paths self' :
  cell_ok cubesize (base head) → Forall (λ c, 0 < c) chain →
  solve fuel (Backtrack_init chain cubesize head) = Ok (paths, self') →
  Forall (λ p, NoDup (swept chain p) ∧
               Forall (cell_ok cubesize) (swept chain p) ∧
               ∃ e, linked (base head) chain p e) paths.
Proof.
  intros Hs Hch H.
  apply (solve_Inv cubesize chain (base head) Hch) in H; try done.
  by apply fresh_init.
Qed.

Lemma solutions_sweep_distinct_cells_witness :
  ∃ paths self',
    solve 1000 (Backtrack_init chain_slices 3 start000) = Ok (paths, self') ∧
    length paths = 2%nat ∧
    Forall (λ p, NoDup (swept chain_slices p) ∧
                 Forall (cell_ok 3) (swept chain_slices p) ∧
                 ∃ e, linked (base start000) chain_slices p e) paths.
Proof.
  eexists _, _. split; [by vm_compute|]. split; [done|].
  eapply (solutions_sweep_distinct_cells 1000 chain_slices 3 start000).
  - unfold cell_ok. simpl. lia.
  - unfold chain_slices. repeat (constructor; [lia|]). constructor.
  - by vm_compute.
Defined.

(** ** The empty chain *)

Lemma _backtrack_empty_chain n s fuel self :
  fresh n [] s self →
  ∃ self', _backtrack fuel self = Ok (Some [], self') ∧ fresh n [] s self' ∧
           _paths self' = _paths self.
Proof.
  intros Hf. pose proof Hf as (Hc & Hl & Hp & Hn & Hwf & Hvals & Hb & Hs).
  destruct (_cube_set_offset_in n self 0 POS_USED) as (c1 & E & _);
    [done|by rewrite vadd_0, Hb|].
  exists (set_cube self c1). unfold _backtrack.
  rewrite decide_True by done. rewrite E. simpl.
  split; [|split; [|done]].
  - destruct fuel; simpl; by rewrite decide_False by (simpl in *; lia).
  - apply (Inv_fresh n [] s (Forall_nil_2 _) (_paths self)).
    by apply first_run_Inv.
Qed.

Lemma solve_loop_empty_chain n s fuel self p :
  fresh n [] s self → solve_loop fuel self (Some p) = OutOfFuel.
Proof.
  revert self p. induction fuel as [|fuel IH]; intros self p Hf; [done|].
  simpl.
  destruct (_backtrack_empty_chain n s fuel
              (set_paths self (_paths self ++ [p]))) as (s1 & E & Hf1 & _);
    [done|].
  rewrite E. simpl. by apply IH.
Qed.

(** C10: with an empty chain and the start inside the cube, every call of
    [_backtrack] returns the empty path, not [None], and leaves the engine
    ready for the same again, so [solve] uses up any amount of fuel. *)
Theorem solve_empty_chain_never_returns (cubesize : Z) (head : BacktrackHead) :
  cell_ok cubesize (base head) →
  fresh cubesize [] (base head) (Backtrack_init [] cubesize head) ∧
  (∀ fuel self, fresh cubesize [] (base head) self →
     ∃ self', _backtrack fuel self = Ok (Some [], self') ∧
       ∀ p, fresh cubesize [] (base head)
                  (set_paths self' (_paths self' ++ [p]))) ∧
  ∀ fuel, solve fuel (Backtrack_init [] cubesize head) = OutOfFuel.
Proof.
  intros Hs. split; [by apply fresh_init|]. split.
  - intros fuel self Hf.
    destruct (_backtrack_empty_chain _ _ fuel self Hf) as (s1 & ? & ? & _).
    by exists s1.
  - intros fuel. unfold solve. rewrite decide_True by done.
    destruct (_backtrack_empty_chain cubesize (base head) fuel
                (Backtrack_init [] cubesize head)) as (s1 & E & Hf1 & _);
      [by apply fresh_init|].
    rewrite E. simpl.
    by rewrite (solve_loop_empty_chain cubesize (base head)).
Qed.

Lemma solve_empty_chain_never_returns_witness :
  cell_ok 1 (base start000) ∧
  ∀ fuel, solve fuel (Backtrack_init [] 1 start000) = OutOfFuel.
Proof.
  assert (cell_ok 1 (base start000)) as H by (unfold cell_ok; simpl; lia).
  split; [done|]. apply (solve_empty_chain_never_returns 1 start000 H).
Defined.

(** ** A wrapped joint *)

(** C4, as stated: on [[1; 2]] in the cube of edge 2 the search reaches a
    wrapped joint with [_pos] at 1, and the loop then returns [None] instead
    of going back one slice. *)
Lemma wrapped_at_progress_1_returns_None :
  _backtrack 6 (Backtrack_init [1; 2] 2 start000) = Ok (None, wrapped_at_1) ∧
  _pos wrapped_at_1 = 1 ∧
  _cube_get_offset wrapped_at_1 0 = Ok 4 ∧
  ∀ fuel, loop_body fuel wrapped_at_1 [start000] = Ok (ReturnNone wrapped_at_1).
Proof. split; [by vm_compute|]. done. Qed.

(** ** Scenarios *)

(** C5, as stated: the search on chain [[1]] in the cube of edge 1 returns
    no list of exactly one solution, whatever the fuel. *)
Lemma scenario_A_not_one_solution :
  ¬ ∃ fuel p self,
      solve fuel (Backtrack_init [1] 1 start000) = Ok ([p], self).
Proof.
  intros ([|fuel] & p & self & H); [done|].
  rewrite (solve_fuel 1 (S fuel)) in H by (try lia; by vm_compute).
  by vm_compute in H.
Qed.

(** C5, amended: on chain [[1]] in the cube of edge 1, from (0,0,0) looking
    along x, [solve] returns the empty list: the slice needs one free cell
    in front of the head and the cube has none. *)
Theorem scenario_A_no_solution (fuel : nat) :
  ∃ self, solve (S fuel) (Backtrack_init [1] 1 start000) = Ok ([], self).
Proof.
  eexists. rewrite (solve_fuel 1 (S fuel)) by (try lia; by vm_compute).
  by vm_compute.
Qed.

(** C2: on chain [[1]] in the cube of edge 2 the first call of [_backtrack]
    returns a solution, and the second one lets the [AssertionError] of
    [rotate_to] escape through [solve]: the assertion fails in the restart
    block, outside the [try]. *)
Theorem restart_assertion_escapes (fuel : nat) :
  (∃ self, _backtrack (2 + fuel) (Backtrack_init [1] 2 start000)
           = Ok (Some [start000], self) ∧
           _backtrack (2 + fuel) (set_paths self [[start000]])
           = Raise AssertionError) ∧
  solve (2 + fuel) (Backtrack_init [1] 2 start000) = Raise AssertionError.
Proof.
  split.
  - eexists. split.
    + rewrite (_backtrack_fuel 2 (2 + fuel)) by (try lia; by vm_compute).
      by vm_compute.
    + by vm_compute.
  - rewrite (solve_fuel 2 (2 + fuel)) by (try lia; by vm_compute).
    by vm_compute.
Qed.

(** C3: on chain [[1; 2]] in the cube of edge 2 the first [solve] returns
    the empty list, leaving [_pos] at 1; the second [solve] then takes the
    "not yet solved" branch again and raises [IndexError] at
    [self._paths[-1]]. *)
Theorem second_solve_raises_when_no_solution (fuel : nat) :
  solve (6 + fuel) (Backtrack_init [1; 2] 2 start000) = Ok ([], wrapped_at_1) ∧
  solve (6 + fuel) wrapped_at_1 = Raise IndexError.
Proof.
  split.
  - rewrite (solve_fuel 6 (6 + fuel)) by (try lia; by vm_compute).
    by vm_compute.
  - by vm_compute.
Qed.

(** C6: on the chain of [main] in the cube of edge 3, from (0,0,0) looking
    along x, [solve] returns exactly two solutions, and the base points of
    the second are those of the first under [f]. *)
Theorem scenario_C_two_similar_solutions (fuel : nat) :
  (1000 ≤ fuel)%nat →
  ∃ p0 p1 self,
    solve fuel (Backtrack_init chain_slices 3 start000) = Ok ([p0; p1], self) ∧
    map_res f (path_points p0) = Ok (path_points p1).
Proof.
  intros Hfuel. do 3 eexists. split.
  - rewrite (solve_fuel 1000 fuel) by (try lia; by vm_compute).
    by vm_compute.
  - by vm_compute.
Qed.

Lemma scenario_C_two_similar_solutions_witness :
  ∃ p0 p1 self,
    solve 1000 (Backtrack_init chain_slices 3 start000) = Ok ([p0; p1], self) ∧
    map_res f (path_points p0) = Ok (path_points p1).
Proof. apply (scenario_C_two_similar_solutions 1000). lia. Defined.

(** ** vector.py: vectors and matrices *)

(** Iterating a vector yields its coordinates in the order x, y, z. *)
Theorem Vector3D_iterates_as_to_list (v : Vector3D) (fuel : nat) :
  iterate (4 + fuel) (vector.__iter__ v) = Ok (vector.to_list v).
Proof. by destruct v. Qed.

(** Indexing a vector: 0, 1, 2 and -3, -2, -1 select a coordinate, every
    other index raises [IndexError]. *)
Theorem Vector3D_getitem (v : Vector3D) (i : Z) :
  vector.__getitem__ v i =
    if decide (i = 0 ∨ i = -3) then Ok (vector.x v)
    else if decide (i = 1 ∨ i = -2) then Ok (vector.y v)
    else if decide (i = 2 ∨ i = -1) then Ok (vector.z v)
    else Raise IndexError.
Proof.
  destruct (decide (-3 ≤ i < 3)) as [Hi|Hi].
  - assert (i = -3 ∨ i = -2 ∨ i = -1 ∨ i = 0 ∨ i = 1 ∨ i = 2) as H by lia.
    destruct v. destruct_or!; by subst.
  - unfold vector.__getitem__, py_index. simpl.
    repeat case_decide; try lia; done.
Qed.

Lemma from_list_three (a b c : Z) (l : list Z) :
  vector.from_list (a :: b :: c :: l) = Ok (mkVector3D a b c).
Proof.
  unfold vector.from_list.
  rewrite (py_index_lookup _ 0 a), (py_index_lookup _ 1 b),
    (py_index_lookup _ 2 c) by (done || lia). done.
Qed.

Lemma from_list_short (l : list Z) :
  (length l < 3)%nat → vector.from_list l = Raise IndexError.
Proof. destruct l as [|a [|b [|c l]]]; simpl; try done. lia. Qed.

(** [from_list] undoes [to_list]; it reads the first three entries of a
    list and raises [IndexError] on a shorter one. *)
Theorem from_list_to_list (v : Vector3D) (l : list Z) :
  vector.from_list (vector.to_list v) = Ok v ∧
  (∀ a b c, vector.from_list (a :: b :: c :: l) = Ok (mkVector3D a b c)) ∧
  ((length l < 3)%nat → vector.from_list l = Raise IndexError).
Proof.
  split; [by destruct v|]. split.
  - intros a b c. apply from_list_three.
  - apply from_list_short.
Qed.

Lemma from_list_to_list_witness :
  vector.from_list [1; 2] = Raise IndexError.
Proof.
  apply (from_list_to_list (mkVector3D 0 0 0) [1; 2]). simpl. lia.
Defined.

Lemma multiply_rows matrix v acc :
  Forall (λ row : list Z, length row = length v) matrix →
  for_in matrix (λ row result,
    if decide (length row = length v)
    then Ok (result ++ [vector.sum (zip_with Z.mul row v)])
    else Raise AssertionError) acc
  = Ok (acc ++ row_products matrix v).
Proof.
  revert acc. induction matrix as [|row m IH]; intros acc Hall.
  - simpl. by rewrite app_nil_r.
  - apply Forall_cons in Hall as [Hrow Hall]. cbn [for_in].
    rewrite decide_True by done.
    change (Ok ?a ≫= ?k) with (k a). cbv beta. rewrite (IH _ Hall).
    unfold row_products. rewrite fmap_cons. by rewrite <-app_assoc.
Qed.

Lemma multiply_rows_mismatch matrix v acc :
  ¬ Forall (λ row : list Z, length row = length v) matrix →
  for_in matrix (λ row result,
    if decide (length row = length v)
    then Ok (result ++ [vector.sum (zip_with Z.mul row v)])
    else Raise AssertionError) acc
  = Raise AssertionError.
Proof.
  revert acc. induction matrix as [|row m IH]; intros acc Hall.
  - destruct Hall. constructor.
  - cbn [for_in]. destruct (decide (length row = length v)) as [Hrow|Hrow];
      [|done].
    simpl. apply IH. intros Hm. apply Hall. by constructor.
Qed.

Lemma multiply_is_matrix_product_aux (matrix : list (list Z)) (v : list Z)
    (r0 r1 r2 : list Z) :
  Forall (λ row : list Z, length row = length v) matrix →
  matrix !! 0%nat = Some r0 → matrix !! 1%nat = Some r1 →
  matrix !! 2%nat = Some r2 →
  multiply matrix v
  = Ok (mkVector3D (vector.sum (zip_with Z.mul r0 v))
                   (vector.sum (zip_with Z.mul r1 v))
                   (vector.sum (zip_with Z.mul r2 v))).
Proof.
  intros Hall H0 H1 H2. unfold multiply. rewrite (multiply_rows _ _ _ Hall).
  destruct matrix as [|? [|? [|? m]]]; simplify_eq/=.
  apply from_list_three.
Qed.

Lemma multiply_raises_aux (matrix : list (list Z)) (v : list Z) :
  (¬ Forall (λ row : list Z, length row = length v) matrix →
   multiply matrix v = Raise AssertionError) ∧
  (Forall (λ row : list Z, length row = length v) matrix →
   (length matrix < 3)%nat → multiply matrix v = Raise IndexError).
Proof.
  split.
  - intros H. unfold multiply. by rewrite (multiply_rows_mismatch _ _ _ H).
  - intros Hall Hlen. unfold multiply. rewrite (multiply_rows _ _ _ Hall).
    simpl. apply from_list_short.
    unfold row_products. by rewrite length_fmap.
Qed.

(** [multiply] returns the products of the first three rows with the
    vector when every row is as long as the vector; further rows only
    have to pass the length check. *)
Theorem multiply_is_matrix_product (matrix : list (list Z)) (v : list Z)
    (r0 r1 r2 : list Z) :
  Forall (λ row : list Z, length row = length v) matrix →
  matrix !! 0%nat = Some r0 → matrix !! 1%nat = Some r1 →
  matrix !! 2%nat = Some r2 →
  multiply matrix v
  = Ok (mkVector3D (vector.sum (zip_with Z.mul r0 v))
                   (vector.sum (zip_with Z.mul r1 v))
                   (vector.sum (zip_with Z.mul r2 v))).
Proof.
  apply multiply_is_matrix_product_aux.
Qed.

Lemma multiply_is_matrix_product_witness :
  multiply [[1; 2]; [3; 4]; [5; 6]; [7; 8]] [10; 1]
  = Ok (mkVector3D 12 34 56).
Proof.
  apply (multiply_is_matrix_product [[1; 2]; [3; 4]; [5; 6]; [7; 8]] [10; 1]
           [1; 2] [3; 4] [5; 6]); try done.
  repeat constructor.
Defined.

(** [multiply] raises [AssertionError] as soon as one row differs in
    length from the vector, and [IndexError] when all rows fit but there
    are fewer than three of them. *)
Theorem multiply_raises (matrix : list (list Z)) (v : list Z) :
  (¬ Forall (λ row : list Z, length row = length v) matrix →
   multiply matrix v = Raise AssertionError) ∧
  (Forall (λ row : list Z, length row = length v) matrix →
   (length matrix < 3)%nat → multiply matrix v = Raise IndexError).
Proof. apply multiply_raises_aux. Qed.

Lemma multiply_raises_witness :
  multiply [[1; 0; 0]; [0; 1]; [0; 0; 1]] [1; 2; 3] = Raise AssertionError ∧
  multiply [[1; 0; 0]; [0; 1; 0]] [1; 2; 3] = Raise IndexError.
Proof.
  split.
  - apply (multiply_raises [[1; 0; 0]; [0; 1]; [0; 0; 1]] [1; 2; 3]).
    intros H. apply Forall_cons in H as [_ H].
    apply Forall_cons in H as [H _]. done.
  - apply (multiply_raises [[1; 0; 0]; [0; 1; 0]] [1; 2; 3]).
    + repeat constructor.
    + simpl. lia.
Defined.

Lemma multiply_3x3 a1 a2 a3 b1 b2 b3 c1 c2 c3 (v : Vector3D) :
  multiply [[a1; a2; a3]; [b1; b2; b3]; [c1; c2; c3]] (vector.to_list v)
  = Ok (mkVector3D
          (a1 * vector.x v + a2 * vector.y v + a3 * vector.z v)
          (b1 * vector.x v + b2 * vector.y v + b3 * vector.z v)
          (c1 * vector.x v + c2 * vector.y v + c3 * vector.z v)).
Proof.
  rewrite (multiply_is_matrix_product_aux _ _ [a1; a2; a3] [b1; b2; b3]
             [c1; c2; c3]); [|by repeat constructor|done..].
  destruct v. unfold vector.sum. simpl. by f_equal.
Qed.

Lemma rotate_rotx (v : Vector3D) :
  rotate rotx v = Ok (mkVector3D (vector.x v) (- vector.z v) (vector.y v)).
Proof.
  unfold rotate, rotx. rewrite multiply_3x3.
  destruct v. simpl. f_equal. f_equal; lia.
Qed.

Lemma rotate_roty (v : Vector3D) :
  rotate roty v = Ok (mkVector3D (vector.z v) (vector.y v) (- vector.x v)).
Proof.
  unfold rotate, roty. rewrite multiply_3x3.
  destruct v. simpl. f_equal. f_equal; lia.
Qed.

Lemma rotate_rotz (v : Vector3D) :
  rotate rotz v = Ok (mkVector3D (- vector.y v) (vector.x v) (vector.z v)).
Proof.
  unfold rotate, rotz. rewrite multiply_3x3.
  destruct v. simpl. f_equal. f_equal; lia.
Qed.

(** Each rotation matrix is the one stored for its axis; it leaves that
    axis where it is, turns every vector onto itself after four
    applications and keeps the dot product of any two vectors. *)
Theorem rotations_are_quarter_turns (axis : Vector3D) (rotmat : list (list Z))
    (v w : Vector3D) :
  (axis, rotmat) ∈ zip baseVectors [rotx; roty; rotz] →
  mapVtoRM !! axis = Some rotmat ∧
  rotate rotmat axis = Ok axis ∧
  ∃ v1 v2 v3 w1,
    rotate rotmat v = Ok v1 ∧ rotate rotmat v1 = Ok v2 ∧
    rotate rotmat v2 = Ok v3 ∧ rotate rotmat v3 = Ok v ∧
    rotate rotmat w = Ok w1 ∧ dot v1 w1 = dot v w.
Proof.
  intros H. simpl in H. destruct v as [a b c], w as [d e g].
  repeat (apply elem_of_cons in H as [H|H]; [simplify_eq|]);
    [| | |by apply elem_of_nil in H];
    (split; [by vm_compute|]); (split; [by vm_compute|]).
  - exists (mkVector3D a (-c) b), (mkVector3D a (-b) (-c)),
      (mkVector3D a c (-b)), (mkVector3D d (-g) e).
    rewrite !rotate_rotx. unfold dot. simpl.
    split_and!; try (f_equal; f_equal; lia); lia.
  - exists (mkVector3D c b (-a)), (mkVector3D (-a) b (-c)),
      (mkVector3D (-c) b a), (mkVector3D g e (-d)).
    rewrite !rotate_roty. unfold dot. simpl.
    split_and!; try (f_equal; f_equal; lia); lia.
  - exists (mkVector3D (-b) a c), (mkVector3D (-a) (-b) c),
      (mkVector3D b (-a) c), (mkVector3D (-e) d g).
    rewrite !rotate_rotz. unfold dot. simpl.
    split_and!; try (f_equal; f_equal; lia); lia.
Qed.

Lemma rotations_are_quarter_turns_witness :
  mapVtoRM !! mkVector3D 0 1 0 = Some roty ∧
  rotate roty (mkVector3D 0 1 0) = Ok (mkVector3D 0 1 0) ∧
  ∃ v1 v2 v3 w1,
    rotate roty (mkVector3D 1 2 3) = Ok v1 ∧ rotate roty v1 = Ok v2 ∧
    rotate roty v2 = Ok v3 ∧ rotate roty v3 = Ok (mkVector3D 1 2 3) ∧
    rotate roty (mkVector3D 4 5 6) = Ok w1 ∧
    dot v1 w1 = dot (mkVector3D 1 2 3) (mkVector3D 4 5 6).
Proof.
  apply (rotations_are_quarter_turns (mkVector3D 0 1 0) roty).
  by apply (bool_decide_unpack _); vm_compute.
Defined.

(** Each mirror matrix undoes itself and keeps the dot product of any two
    vectors. *)
Theorem mirrors_are_involutions (m : list (list Z)) (v w : Vector3D) :
  m ∈ [mirror_yz; mirror_zx; mirror_xy] →
  ∃ v1 w1,
    multiply m (vector.to_list v) = Ok v1 ∧
    multiply m (vector.to_list v1) = Ok v ∧
    multiply m (vector.to_list w) = Ok w1 ∧ dot v1 w1 = dot v w.
Proof.
  intros H. destruct v as [a b c], w as [d e g].
  repeat (apply elem_of_cons in H as [->|H]); [| | |by apply elem_of_nil in H];
    unfold mirror_yz, mirror_zx, mirror_xy.
  - exists (mkVector3D (-a) b c), (mkVector3D (-d) e g).
    rewrite !multiply_3x3. unfold dot. simpl.
    split_and!; try (f_equal; f_equal; lia); lia.
  - exists (mkVector3D a (-b) c), (mkVector3D d (-e) g).
    rewrite !multiply_3x3. unfold dot. simpl.
    split_and!; try (f_equal; f_equal; lia); lia.
  - exists (mkVector3D a b (-c)), (mkVector3D d e (-g)).
    rewrite !multiply_3x3. unfold dot. simpl.
    split_and!; try (f_equal; f_equal; lia); lia.
Qed.

Lemma mirrors_are_involutions_witness :
  ∃ v1 w1,
    multiply mirror_zx (vector.to_list (mkVector3D 1 2 3)) = Ok v1 ∧
    multiply mirror_zx (vector.to_list v1) = Ok (mkVector3D 1 2 3) ∧
    multiply mirror_zx (vector.to_list (mkVector3D 4 5 6)) = Ok w1 ∧
    dot v1 w1 = dot (mkVector3D 1 2 3) (mkVector3D 4 5 6).
Proof.
  apply (mirrors_are_involutions mirror_zx).
  by apply (bool_decide_unpack _); vm_compute.
Defined.

(** The transformation [f] of [main] swaps the y and z coordinates of a
    point, so it undoes itself; on a list that has not three entries it
    raises [AssertionError]. *)
Theorem f_swaps_y_and_z (l : list Z) :
  f l = match l with
        | [a; b; c] => Ok [a; c; b]
        | _ => Raise AssertionError
        end.
Proof.
  unfold f.
  destruct l as [|a [|b [|c [|d l]]]].
  1-3, 5: rewrite (proj1 (multiply_raises_aux _ _)); [done|];
    intros H; apply Forall_cons in H as [H _]; simpl in H; lia.
  change [a; b; c] with (vector.to_list (mkVector3D a b c)).
  unfold mirror_yz. rewrite multiply_3x3.
  change (Ok ?a ≫= ?k) with (k a). cbv beta.
  change (multiply ?m (vector.to_list ?v)) with (rotate m v).
  rewrite rotate_rotx. change (Ok ?a ≫= ?k) with (k a). cbv beta.
  rewrite rotate_rotz. change (Ok ?a ≫= ?k) with (k a). cbv beta.
  rewrite rotate_rotz. change (Ok ?a ≫= ?k) with (k a). cbv beta.
  f_equal. unfold vector.to_list. cbn [vector.x vector.y vector.z].
  repeat (f_equal; try lia).
Qed.

(** ** BacktrackHead *)

Ltac base_cases H :=
  apply baseDirections_cases in H; destruct_or! H.

(** On a base direction [get_sign] is the nonzero component: 1 for the
    three base vectors, -1 for their inverses. *)
Theorem get_sign_of_base_direction (h : BacktrackHead) :
  direction h ∈ baseDirections →
  get_sign h = vector.x (direction h) + vector.y (direction h)
               + vector.z (direction h) ∧
  ((get_sign h = 1 ∧ direction h ∈ baseVectors) ∨
   (get_sign h = -1 ∧ (-1) *v direction h ∈ baseVectors)).
Proof.
  intros H. destruct h as [b d o]. simpl in *.
  base_cases H; subst d; (split; [done|]);
    [left|left|left|right|right|right];
    (split; [done|by apply (bool_decide_unpack _); vm_compute]).
Qed.

Lemma get_sign_of_base_direction_witness :
  get_sign (mkHead (mkVector3D 5 5 5) (mkVector3D 0 (-1) 0) None) = 0 + -1 + 0.
Proof.
  apply (get_sign_of_base_direction
           (mkHead (mkVector3D 5 5 5) (mkVector3D 0 (-1) 0) None)).
  by apply (bool_decide_unpack _); vm_compute.
Defined.

(** [move] adds up: two moves are one move by the sum, a move by 0 changes
    nothing, and reading the cube at an offset after a move is reading it
    at the summed offset before. *)
Theorem move_adds_up (self : Backtrack) (a b : Z) :
  move (move (head self) a) b = move (head self) (a + b) ∧
  move (head self) 0 = head self ∧
  _cube_get_offset (set_head self (move (head self) a)) b
  = _cube_get_offset self (a + b).
Proof.
  destruct self as [ch n [[bx by_ bz] [dx dy dz] o] p cl cube ps].
  unfold move, _cube_get_offset, vector.__add__, vector.__rmul__. simpl.
  split_and!.
  - f_equal. f_equal; lia.
  - f_equal. f_equal; lia.
  - f_equal. f_equal; lia.
Qed.

(** [change_direction] raises [KeyError] unless the head looks along a
    base direction; then it keeps the base, remembers the old direction
    and looks along a base direction perpendicular to it, the one
    [rotate_to] gives for joint state 0. *)
Theorem change_direction_turns (h : BacktrackHead) :
  (direction h ∉ baseDirections → change_direction h = Raise KeyError) ∧
  (direction h ∈ baseDirections →
   ∃ d, change_direction h = Ok (mkHead (base h) d (Some (direction h))) ∧
        d ∈ baseDirections ∧ dot d (direction h) = 0 ∧
        rotate_to (mkHead (base h) d (Some (direction h))) JOINT0
        = Ok (mkHead (base h) d (Some (direction h)))).
Proof.
  destruct h as [b d o]. simpl. split.
  - intros H. unfold change_direction, dict_get. simpl.
    destruct (jointDirections !! d) as [l|] eqn:E; [|done].
    destruct H. apply jointDirections_keys. by exists l.
  - intros H. base_cases H; subst d; eexists;
      (split; [by vm_compute|]);
      (split; [by apply (bool_decide_unpack _); vm_compute|]); done.
Qed.

Lemma change_direction_turns_witness :
  change_direction (mkHead (mkVector3D 0 0 0) (mkVector3D 1 1 0) None)
  = Raise KeyError.
Proof.
  apply (change_direction_turns
           (mkHead (mkVector3D 0 0 0) (mkVector3D 1 1 0) None)).
  simpl. intros H. by apply (bool_decide_pack _) in H.
Defined.

(** [rotate_to] raises [AssertionError] on a head that never changed
    direction, [KeyError] when the remembered direction is no base
    direction and [IndexError] for a joint state outside -5..4; otherwise
    it keeps base and remembered direction and looks along a base
    direction perpendicular to the remembered one. *)
Theorem rotate_to_cases (h : BacktrackHead) (joint_state : Z) :
  match _old_direction h with
  | None => rotate_to h joint_state = Raise AssertionError
  | Some old =>
      if decide (old ∈ baseDirections) then
        if decide (-5 ≤ joint_state < 5) then
          ∃ d, rotate_to h joint_state = Ok (mkHead (base h) d (Some old)) ∧
               d ∈ baseDirections ∧ dot d old = 0
        else rotate_to h joint_state = Raise IndexError
      else rotate_to h joint_state = Raise KeyError
  end.
Proof.
  destruct h as [b d [old|]]; simpl; [|done].
  destruct (decide (old ∈ baseDirections)) as [H|H].
  - destruct (decide _) as [Hk|Hk].
    + assert (joint_state ∈ range (-5) 5) as Hin by (apply elem_of_range; lia).
      vm_compute range in Hin.
      base_cases H; subst old;
        repeat (apply elem_of_cons in Hin as [->|Hin];
                [eexists; split; [by vm_compute|];
                 split; [by apply (bool_decide_unpack _); vm_compute|done]|]);
        by apply elem_of_nil in Hin.
    + unfold rotate_to. simpl.
      base_cases H; subst old; vm_compute dict_get; simpl;
        unfold py_index; simpl; repeat case_decide; try lia; done.
  - unfold rotate_to, dict_get. simpl.
    destruct (jointDirections !! old) as [l|] eqn:E; [|done].
    destruct H. apply jointDirections_keys. by exists l.
Qed.

(** After [change_direction], every base direction perpendicular to the
    old direction is reached by exactly one of the joint states 0 to 3. *)
Theorem joint_states_enumerate_perpendiculars (h h1 : BacktrackHead)
    (d : Vector3D) :
  change_direction h = Ok h1 → d ∈ baseDirections → dot d (direction h) = 0 →
  ∃ k, 0 ≤ k < N_JNTS ∧
       rotate_to h1 k = Ok (mkHead (base h) d (Some (direction h))) ∧
       ∀ k', 0 ≤ k' < N_JNTS →
             rotate_to h1 k' = Ok (mkHead (base h) d (Some (direction h))) →
             k' = k.
Proof.
  intros Hc Hd Hdot.
  pose proof (change_direction_Ok _ _ Hc) as (Hh & _ & _).
  destruct h as [b dh o]. simpl in *.
  assert (∀ k', 0 ≤ k' < N_JNTS → k' ∈ [0; 1; 2; 3]) as Hks.
  { intros k' Hk'. unfold N_JNTS in Hk'.
    assert (k' = 0 ∨ k' = 1 ∨ k' = 2 ∨ k' = 3) by lia.
    destruct_or!; subst; by apply (bool_decide_unpack _). }
  base_cases Hh; subst dh; vm_compute in Hc; simplify_eq;
    base_cases Hd; subst d; try (by vm_compute in Hdot);
    first [ exists 0; split; [done|]; split; [by vm_compute|]
          | exists 1; split; [done|]; split; [by vm_compute|]
          | exists 2; split; [done|]; split; [by vm_compute|]
          | exists 3; split; [done|]; split; [by vm_compute|] ];
    intros k' Hk' Hr; apply Hks in Hk';
    repeat (apply elem_of_cons in Hk' as [->|Hk'];
            [by vm_compute in Hr|]);
    by apply elem_of_nil in Hk'.
Qed.

Lemma joint_states_enumerate_perpendiculars_witness :
  ∃ k, 0 ≤ k < N_JNTS ∧
       rotate_to (mkHead (mkVector3D 2 2 2) (mkVector3D 0 0 1)
                         (Some (mkVector3D 0 1 0))) k
       = Ok (mkHead (mkVector3D 2 2 2) (mkVector3D (-1) 0 0)
                    (Some (mkVector3D 0 1 0))) ∧
       ∀ k', 0 ≤ k' < N_JNTS →
             rotate_to (mkHead (mkVector3D 2 2 2) (mkVector3D 0 0 1)
                               (Some (mkVector3D 0 1 0))) k'
             = Ok (mkHead (mkVector3D 2 2 2) (mkVector3D (-1) 0 0)
                          (Some (mkVector3D 0 1 0))) →
             k' = k.
Proof.
  apply (joint_states_enumerate_perpendiculars
           (mkHead (mkVector3D 2 2 2) (mkVector3D 0 1 0) None)
           (mkHead (mkVector3D 2 2 2) (mkVector3D 0 0 1)
                   (Some (mkVector3D 0 1 0)))
           (mkVector3D (-1) 0 0)).
  - by vm_compute.
  - by apply (bool_decide_unpack _); vm_compute.
  - done.
Defined.

(** ** The cube *)

Lemma py_index_wrap {A} (l : list A) (n i : Z) :
  Z.of_nat (length l) = n → -n ≤ i < n →
  py_index l i = py_index l (i `mod` n).
Proof.
  intros Hl Hi. unfold py_index. rewrite Hl.
  destruct (decide (i < 0)).
  - assert (i `mod` n = i + n) as ->;
      [|by rewrite (decide_False (P := i + n < 0)) by lia].
    symmetry. apply (Z.mod_unique_pos i n (-1)); lia.
  - rewrite Z.mod_small by lia.
    by rewrite (decide_False (P := i < 0)) by lia.
Qed.

Lemma py_index_out {A} (l : list A) (n i : Z) :
  Z.of_nat (length l) = n → ¬ (-n ≤ i < n) → py_index l i = Raise IndexError.
Proof.
  intros Hl Hi. unfold py_index. rewrite Hl.
  destruct (decide (i < 0)); rewrite decide_False; try done; lia.
Qed.

Lemma py_setitem_out {A} (l : list A) (n i : Z) (v : A) :
  Z.of_nat (length l) = n → ¬ (-n ≤ i < n) →
  py_setitem l i v = Raise IndexError.
Proof.
  intros Hl Hi. unfold py_setitem. rewrite Hl.
  destruct (decide (i < 0)); rewrite decide_False; try done; lia.
Qed.

Lemma py_index_in {A} (l : list A) (n i : Z) :
  Z.of_nat (length l) = n → -n ≤ i < n → ∃ a, py_index l i = Ok a ∧ a ∈ l.
Proof.
  intros Hl Hi. rewrite (py_index_wrap l n i) by done.
  assert (0 ≤ i `mod` n < n) as Hm by (apply Z.mod_pos_bound; lia).
  destruct (lookup_lt_is_Some_2 l (Z.to_nat (i `mod` n))) as [a Ha]; [lia|].
  exists a. split; [apply py_index_lookup; [lia|done]|].
  by eapply list_elem_of_lookup_2.
Qed.

(** Reading the cube: a coordinate in [-n, 0) counts from the far face, as
    Python's negative indices do, and a coordinate outside [-n, n) raises
    [IndexError], for reading and for writing. *)
Theorem cube_index_wraps_or_raises (n : Z) (cube : list (list (list Z)))
    (c : Vector3D) (v : Z) :
  cube_wf n cube → 0 < n →
  if decide (-n ≤ vector.x c < n ∧ -n ≤ vector.y c < n ∧ -n ≤ vector.z c < n)
  then cube_get cube c
       = cube_get cube (mkVector3D (vector.x c `mod` n) (vector.y c `mod` n)
                                   (vector.z c `mod` n))
  else cube_get cube c = Raise IndexError ∧ cube_set cube c v = Raise IndexError.
Proof.
  intros [Hlen Hall] Hn. destruct c as [cx cy cz]. simpl.
  assert (Z.of_nat (length cube) = n) as Hl by lia.
  assert (∀ i, 0 ≤ i `mod` n < n) as Hmod by (intros; apply Z.mod_pos_bound; lia).
  assert (∀ i, (i `mod` n) `mod` n = i `mod` n) as Hmm
    by (intros; apply Z.mod_mod; lia).
  unfold cube_get, cube_set. simpl.
  destruct (decide (-n ≤ cx < n)) as [Hx|Hx].
  2: { rewrite decide_False by tauto. by rewrite (py_index_out _ n) by done. }
  rewrite (py_index_wrap cube n cx) by done.
  destruct (py_index_in cube n (cx `mod` n)) as (plane & Hp & Hpin);
    [done|pose proof (Hmod cx); lia|].
  rewrite Hp. simpl.
  pose proof (proj1 (Forall_forall _ _) Hall _ Hpin) as [Hlp Hrows].
  assert (Z.of_nat (length plane) = n) as Hlp' by lia.
  destruct (decide (-n ≤ cy < n)) as [Hy|Hy].
  2: { rewrite decide_False by tauto. by rewrite (py_index_out _ n) by done. }
  rewrite (py_index_wrap plane n cy) by done.
  destruct (py_index_in plane n (cy `mod` n)) as (row & Hr & Hrin);
    [done|pose proof (Hmod cy); lia|].
  rewrite Hr. simpl.
  pose proof (proj1 (Forall_forall _ _) Hrows _ Hrin) as Hlr. simpl in Hlr.
  assert (Z.of_nat (length row) = n) as Hlr' by lia.
  destruct (decide (-n ≤ cz < n)) as [Hz|Hz].
  2: { rewrite decide_False by tauto.
       rewrite (py_index_out _ n) by done.
       by rewrite (py_setitem_out _ n) by done. }
  rewrite decide_True by done.
  by rewrite (py_index_wrap row n cz) by done.
Qed.

Lemma cube_index_wraps_or_raises_witness :
  cube_get [[[1; 2]; [3; 4]]; [[5; 6]; [7; 8]]] (mkVector3D (-1) 0 (-2))
  = cube_get [[[1; 2]; [3; 4]]; [[5; 6]; [7; 8]]]
             (mkVector3D ((-1) `mod` 2) (0 `mod` 2) ((-2) `mod` 2)).
Proof.
  apply (cube_index_wraps_or_raises 2 [[[1; 2]; [3; 4]]; [[5; 6]; [7; 8]]]
           (mkVector3D (-1) 0 (-2)) 0).
  - split; [done|]. repeat constructor.
  - lia.
Defined.

(** Writing a cell of the cube through the head and reading it back gives
    the value written; the write changes nothing but the cube, and in the
    cube no other cell. *)
Theorem cube_set_then_get (n : Z) (self : Backtrack) (offset value : Z) :
  cube_wf n (_cube self) →
  cell_ok n (base (head self) +v offset *v direction (head self)) →
  ∃ cube',
    _cube_set_offset self offset value = Ok (set_cube self cube') ∧
    cube_wf n cube' ∧
    _cube_get_offset (set_cube self cube') offset = Ok value ∧
    ∀ c, cell_ok n c →
         c ≠ base (head self) +v offset *v direction (head self) →
         cube_get cube' c = cube_get (_cube self) c.
Proof.
  intros Hwf Hc.
  destruct (_cube_set_offset_in n self offset value Hwf Hc)
    as (cube' & E & Hwf' & Hget).
  exists cube'. split_and!; try done.
  - unfold _cube_get_offset. simpl. rewrite (Hget _ Hc).
    by rewrite decide_True.
  - intros c Hcok Hne. rewrite (Hget _ Hcok). by rewrite decide_False.
Qed.

Lemma cube_set_then_get_witness :
  ∃ cube',
    _cube_set_offset (Backtrack_init [1] 2 start000) 1 7
    = Ok (set_cube (Backtrack_init [1] 2 start000) cube') ∧
    cube_wf 2 cube' ∧
    _cube_get_offset (set_cube (Backtrack_init [1] 2 start000) cube') 1
    = Ok 7 ∧
    ∀ c, cell_ok 2 c → c ≠ mkVector3D 1 0 0 →
         cube_get cube' c
         = cube_get (_cube (Backtrack_init [1] 2 start000)) c.
Proof.
  apply (cube_set_then_get 2 (Backtrack_init [1] 2 start000) 1 7).
  - apply cube_wf_init.
  - unfold cell_ok. simpl. lia.
Defined.

Lemma init_all_free (chain : list Z) (cubesize : Z)
    (head : BacktrackHead) (c : Vector3D) :
  cell_ok cubesize c →
  cube_get (_cube (Backtrack_init chain cubesize head)) c = Ok POS_FREE.
Proof.
  intros Hc.
  destruct (cube_get_in cubesize _ c (cube_wf_init chain cubesize head) Hc)
    as [v Hv].
  rewrite Hv. f_equal.
  destruct Hc as (Hx & Hy & Hz). unfold cube_get in Hv. simpl in Hv.
  apply bind_Ok in Hv as (plane & Hp & Hv).
  apply bind_Ok in Hv as (row & Hr & Hv).
  apply py_index_Ok_nonneg in Hp; [|lia].
  apply lookup_replicate in Hp as [-> _].
  apply py_index_Ok_nonneg in Hr; [|lia].
  apply lookup_replicate in Hr as [-> _].
  apply py_index_Ok_nonneg in Hv; [|lia].
  by apply lookup_replicate in Hv as [-> _].
Qed.

(** A new engine has every cell of its cube free. *)
Theorem Backtrack_init_all_free (chain : list Z) (cubesize : Z)
    (head : BacktrackHead) (c : Vector3D) :
  cell_ok cubesize c →
  cube_get (_cube (Backtrack_init chain cubesize head)) c = Ok POS_FREE.
Proof. apply init_all_free. Qed.

Lemma Backtrack_init_all_free_witness :
  cube_get (_cube (Backtrack_init [2; 1] 3 start000)) (mkVector3D 2 0 1)
  = Ok POS_FREE.
Proof.
  apply (Backtrack_init_all_free [2; 1] 3 start000 (mkVector3D 2 0 1)).
  unfold cell_ok. simpl. lia.
Defined.

(** ** Counting free steps, exactly *)

Lemma along_in_cube n b d k :
  d ∈ baseDirections → cell_ok n b → cell_ok n (b +v k *v d) → 0 ≤ k → k < n.
Proof.
  intros Hd Hb Hk H0. apply baseDirections_cases in Hd.
  destruct b as [bx by_ bz]. unfold cell_ok in *. simpl in *.
  destruct_or!; subst d; simpl in *; lia.
Qed.

Lemma step_out_of_cube n h pos :
  direction h ∈ baseDirections → cell_ok n pos →
  (if bool_decide (get_sign h = 1)
   then bool_decide (vmax (pos +v direction h) < n)
   else bool_decide (vmin (pos +v direction h) >= 0)) = false →
  ¬ cell_ok n (pos +v direction h).
Proof.
  intros Hd Hok. apply baseDirections_cases in Hd.
  destruct h as [b d o], pos as [px py pz]. simpl in *.
  unfold get_sign, vmax, vmin, cell_ok in *. simpl in *.
  destruct_or!; subst d; simpl;
    repeat case_bool_decide; repeat case_decide; intros; try done; lia.
Qed.

Lemma _nsteps_loop_exact n fuel self pos k :
  cubesize self = n → cube_wf n (_cube self) →
  direction (head self) ∈ baseDirections →
  cell_ok n (base (head self)) →
  pos = base (head self) +v k *v direction (head self) →
  cell_ok n pos → 0 ≤ k → (Z.to_nat (n - 1 - k) ≤ fuel)%nat →
  ∃ a, _nsteps_loop fuel self (bool_decide (get_sign (head self) = 1)) pos k
       = Ok a ∧ k ≤ a ∧
       ¬ (cell_ok n (base (head self) +v (a + 1) *v direction (head self)) ∧
          cube_get (_cube self)
                   (base (head self) +v (a + 1) *v direction (head self))
          = Ok POS_FREE).
Proof.
  intros Hn Hwf Hd Hb. revert pos k.
  induction fuel as [|fuel IH]; intros pos k Hpos Hok Hk Hfuel;
    cbn [_nsteps_loop]; rewrite Hn;
    assert (pos +v direction (head self)
            = base (head self) +v (k + 1) *v direction (head self)) as Hnext
      by (rewrite Hpos; apply vadd_succ);
    (destruct (if bool_decide _ then _ else _) eqn:Hcond;
     [|exists k; split; [done|]; split; [lia|]; rewrite <-Hnext;
       intros [Hc _]; by apply (step_out_of_cube n (head self) pos)]);
    apply (step_in_cube n (head self) pos Hd Hok) in Hcond;
    pose proof Hcond as Hcond'; rewrite Hnext in Hcond';
    pose proof (along_in_cube _ _ _ _ Hd Hb Hcond' ltac:(lia));
    try lia;
    unfold _cube_get_offset at 1;
    destruct (cube_get_in _ _ _ Hwf Hcond') as [v Hv]; rewrite Hv;
    simpl;
    (destruct (decide (v = POS_FREE)) as [->|Hv'];
     [|exists k; split; [done|]; split; [lia|]; intros [_ Hf]; congruence]).
  destruct (IH (pos +v direction (head self)) (k + 1)) as (a & Ha & Hle & Hmax);
    try done; try lia.
  exists a. split; [done|]. split; [lia|done].
Qed.

Lemma _nsteps_exact (n : Z) (self : Backtrack) (fuel : nat) :
  cubesize self = n → cube_wf n (_cube self) →
  direction (head self) ∈ baseDirections →
  cell_ok n (base (head self)) →
  (Z.to_nat n ≤ fuel)%nat →
  ∃ a, _nsteps fuel self = Ok a ∧ 0 ≤ a < n ∧
       (∀ j, 1 ≤ j ≤ a →
          cell_ok n (base (head self) +v j *v direction (head self)) ∧
          cube_get (_cube self)
                   (base (head self) +v j *v direction (head self))
          = Ok POS_FREE) ∧
       ¬ (cell_ok n (base (head self) +v (a + 1) *v direction (head self)) ∧
          cube_get (_cube self)
                   (base (head self) +v (a + 1) *v direction (head self))
          = Ok POS_FREE).
Proof.
  intros Hn Hwf Hd Hb Hfuel.
  destruct (_nsteps_loop_exact n fuel self (base (head self)) 0)
    as (a & Ha & Hle & Hmax); try done; try lia.
  { by rewrite vadd_0. }
  exists a. split; [done|].
  destruct (_nsteps_free n fuel self a Hn Hwf Hd Hb Ha) as [_ Hfree].
  split; [|done]. split; [done|].
  destruct (decide (a = 0)) as [->|]; [destruct Hb; lia|].
  destruct (Hfree a) as [Hok _]; [lia|].
  apply (along_in_cube n _ _ _ Hd Hb Hok). lia.
Qed.

(** With the head inside the cube and looking along a base direction,
    [_nsteps] returns with fuel [cubesize], and its result is the exact
    number of free cells in front of the head: these cells are inside
    the cube and free, and the next one is outside or not free. *)
Theorem _nsteps_counts_free_cells (n : Z) (self : Backtrack) (fuel : nat) :
  cubesize self = n → cube_wf n (_cube self) →
  direction (head self) ∈ baseDirections →
  cell_ok n (base (head self)) →
  (Z.to_nat n ≤ fuel)%nat →
  ∃ a, _nsteps fuel self = Ok a ∧ 0 ≤ a < n ∧
       (∀ j, 1 ≤ j ≤ a →
          cell_ok n (base (head self) +v j *v direction (head self)) ∧
          cube_get (_cube self)
                   (base (head self) +v j *v direction (head self))
          = Ok POS_FREE) ∧
       ¬ (cell_ok n (base (head self) +v (a + 1) *v direction (head self)) ∧
          cube_get (_cube self)
                   (base (head self) +v (a + 1) *v direction (head self))
          = Ok POS_FREE).
Proof. apply _nsteps_exact. Qed.

Lemma _nsteps_counts_free_cells_witness :
  ∃ a, _nsteps 3 (Backtrack_init chain_slices 3 start000) = Ok a ∧
       0 ≤ a < 3 ∧
       (∀ j, 1 ≤ j ≤ a →
          cell_ok 3 (mkVector3D 0 0 0 +v j *v mkVector3D 1 0 0) ∧
          cube_get (_cube (Backtrack_init chain_slices 3 start000))
                   (mkVector3D 0 0 0 +v j *v mkVector3D 1 0 0)
          = Ok POS_FREE) ∧
       ¬ (cell_ok 3 (mkVector3D 0 0 0 +v (a + 1) *v mkVector3D 1 0 0) ∧
          cube_get (_cube (Backtrack_init chain_slices 3 start000))
                   (mkVector3D 0 0 0 +v (a + 1) *v mkVector3D 1 0 0)
          = Ok POS_FREE).
Proof.
  apply (_nsteps_counts_free_cells 3 (Backtrack_init chain_slices 3 start000) 3).
  - done.
  - apply cube_wf_init.
  - by apply (bool_decide_unpack _); vm_compute.
  - unfold cell_ok. simpl. lia.
  - simpl. lia.
Defined.

(** ** Solutions and the size of the cube *)

Lemma length_range (a b : Z) : length (range a b) = Z.to_nat (b - a).
Proof. unfold range. by rewrite length_fmap, length_seq. Qed.

Lemma length_all_cells (n : Z) : 0 ≤ n → Z.of_nat (length (all_cells n)) = n ^ 3.
Proof.
  intros Hn. unfold all_cells.
  rewrite length_fmap, !length_prod, !length_range. lia.
Qed.

Lemma elem_of_all_cells (n : Z) (c : Vector3D) : cell_ok n c → c ∈ all_cells n.
Proof.
  intros (Hx & Hy & Hz). unfold all_cells. apply list_elem_of_fmap.
  exists (vector.x c, (vector.y c, vector.z c)). split; [by destruct c|].
  apply list_elem_of_In, in_prod_iff. split.
  - apply list_elem_of_In, elem_of_range. lia.
  - apply in_prod_iff. split; apply list_elem_of_In, elem_of_range; lia.
Qed.

Lemma sum_from (a : Z) (l : list Z) : foldl Z.add a l = a + vector.sum l.
Proof.
  unfold vector.sum. revert a. induction l as [|b l IH]; intros a; simpl.
  - lia.
  - rewrite (IH (a + b)), (IH (0 + b)). lia.
Qed.

Lemma sum_cons (a : Z) (l : list Z) : vector.sum (a :: l) = a + vector.sum l.
Proof. unfold vector.sum at 1. simpl. apply sum_from. Qed.

Lemma length_slice_cells (h : BacktrackHead) (c : Z) :
  length (slice_cells h c) = Z.to_nat c.
Proof.
  unfold slice_cells. rewrite length_fmap, length_range. lia.
Qed.

Lemma length_slices (path : Path) (ch : list Z) :
  length path = length ch → Forall (λ c, 0 < c) ch →
  Z.of_nat (length (concat (zip_with slice_cells path ch))) = vector.sum ch.
Proof.
  revert ch. induction path as [|h path IH]; intros [|c ch] Hlen Hch;
    simplify_eq/=; [done|].
  apply Forall_cons in Hch as [Hc Hch].
  rewrite length_app, length_slice_cells, sum_cons, Nat2Z.inj_add.
  rewrite (IH ch) by done. lia.
Qed.

Lemma length_swept (path : Path) (ch : list Z) :
  length path = length ch → ch ≠ [] → Forall (λ c, 0 < c) ch →
  Z.of_nat (length (swept ch path)) = 1 + vector.sum ch.
Proof.
  intros Hlen Hne Hch. destruct path as [|h path].
  - by destruct ch.
  - unfold swept. cbn [length]. rewrite Nat2Z.inj_succ.
    rewrite (length_slices (h :: path) ch) by done. lia.
Qed.

Lemma solve_lengths ch fuel self paths self' :
  chain self = ch → _chainlength self = Z.of_nat (length ch) →
  _pos self = 0 → _paths self = [] →
  solve fuel self = Ok (paths, self') →
  Forall (λ p : Path, length p = length ch) paths.
Proof.
  intros Hch Hl Hpos Hps. unfold solve. rewrite decide_True by done.
  intros H. apply bind_Ok in H as ([o s] & Hb & H).
  apply bind_Ok in H as (s' & Hloop & H). simplify_eq.
  apply (_backtrack_LenInv (chain self)) in Hb as (? & ? & Hps' & ?);
    try done; [|by rewrite Hps|by left].
  apply (solve_loop_LenInv (chain self)) in Hloop; try done.
  by rewrite Hps', Hps.
Qed.

(** Every solution that [solve] returns sweeps 1 + sum(chain) cells, and
    when that is the number of cells of the cube, every cell of the cube
    is swept: the chain fills the cube. *)
Theorem solutions_fill_the_cube fuel chain cubesize head paths self' p :
  cell_ok cubesize (base head) → Forall (λ c, 0 < c) chain → chain ≠ [] →
  solve fuel (Backtrack_init chain cubesize head) = Ok (paths, self') →
  p ∈ paths →
  Z.of_nat (length (swept chain p)) = 1 + vector.sum chain ∧
  (1 + vector.sum chain = cubesize ^ 3 →
   ∀ c, cell_ok cubesize c → c ∈ swept chain p).
Proof.
  intros Hs Hch Hne H Hp.
  assert (Forall (λ p : Path, length p = length chain) paths) as Hlens
    by (by eapply (solve_lengths chain); [..|exact H]).
  apply (solve_Inv cubesize chain (base head) Hch) in H;
    [|by apply fresh_init|done].
  pose proof (proj1 (Forall_forall _ _) Hlens _ Hp) as Hlen. simpl in Hlen.
  pose proof (proj1 (Forall_forall _ _) H _ Hp) as (Hnd & Hin & _).
  pose proof (length_swept p chain Hlen Hne Hch) as Hcount.
  split; [done|]. intros Hfull c Hc.
  assert (swept chain p ⊆+ all_cells cubesize) as Hsub.
  { apply NoDup_submseteq; [done|]. intros x Hx.
    apply elem_of_all_cells. by apply (proj1 (Forall_forall _ _) Hin). }
  apply submseteq_length_Permutation in Hsub.
  - rewrite Hsub. by apply elem_of_all_cells.
  - pose proof (length_all_cells cubesize) as Hall.
    destruct Hs as [? _]. lia.
Qed.

Lemma solutions_fill_the_cube_witness :
  ∃ p, Z.of_nat (length (swept chain_slices p)) = 1 + vector.sum chain_slices ∧
       (1 + vector.sum chain_slices = 3 ^ 3 →
        ∀ c, cell_ok 3 c → c ∈ swept chain_slices p).
Proof.
  assert (∃ p q self,
            solve 1000 (Backtrack_init chain_slices 3 start000)
            = Ok ([p; q], self)) as (p & q & self & H).
  { do 3 eexists. by vm_compute. }
  exists p.
  apply (solutions_fill_the_cube 1000 chain_slices 3 start000 [p; q] self p).
  - unfold cell_ok. simpl. lia.
  - unfold chain_slices. repeat (constructor; [lia|]). constructor.
  - done.
  - exact H.
  - left.
Defined.

(** ** Joints *)

Lemma py_index_elem_of {A} (l : list A) (i : Z) (a : A) :
  py_index l i = Ok a → a ∈ l.
Proof.
  unfold py_index. destruct (decide _); [|done].
  destruct (l !! _) eqn:E; intros; simplify_eq.
  by eapply list_elem_of_lookup_2.
Qed.

Lemma jointDirections_row old l d :
  jointDirections !! old = Some l → d ∈ l →
  old ∈ baseDirections ∧ d ∈ baseDirections ∧ dot d old = 0.
Proof.
  intros H Hd.
  table_cases H;
    repeat (apply elem_of_cons in Hd as [->|Hd];
            [split; [by apply (bool_decide_unpack _); vm_compute|];
             split; [by apply (bool_decide_unpack _); vm_compute|done]|]);
    by apply elem_of_nil in Hd.
Qed.

Lemma rotate_to_perpendicular h k h' :
  rotate_to h k = Ok h' →
  ∃ old, _old_direction h = Some old ∧ _old_direction h' = Some old ∧
         old ∈ baseDirections ∧ direction h' ∈ baseDirections ∧
         dot (direction h') old = 0.
Proof.
  unfold rotate_to. destruct (_old_direction h) as [old|]; [|done].
  intros H. apply bind_Ok in H as (l & Hl & H).
  apply bind_Ok in H as (d & Hd & H). simplify_eq. simpl.
  apply dict_get_Ok in Hl. apply py_index_elem_of in Hd.
  exists old. destruct (jointDirections_row _ _ _ Hl Hd) as (? & ? & ?).
  by split_and!.
Qed.

Lemma change_direction_turns_head h c h' :
  change_direction (move h c) = Ok h' → turns h h'.
Proof.
  unfold change_direction. intros H. apply bind_Ok in H as (l & Hl & H).
  apply bind_Ok in H as (d & Hd & H). simplify_eq. simpl.
  apply dict_get_Ok in Hl. apply py_index_elem_of in Hd.
  destruct (jointDirections_row _ _ _ Hl Hd) as (? & ? & ?).
  by split_and!.
Qed.

Lemma bends_snoc l a b :
  bends (l ++ [a]) → turns a b → bends (l ++ [a; b]).
Proof.
  induction l as [|x l IH]; simpl; [by intros _ ?|].
  intros [Hx Hl] Hab. split; [|by apply IH].
  destruct l as [|y l]; simpl in *; done.
Qed.

Lemma bends_app_l l k : bends (l ++ k) → bends l.
Proof.
  induction l as [|x l IH]; simpl; [done|].
  intros [Hx Hl]. split; [|by apply IH].
  destruct l as [|y l]; simpl in *; done.
Qed.

Lemma bends_rotate l h h' k :
  bends (l ++ [h]) → rotate_to h k = Ok h' → bends (l ++ [h']).
Proof.
  intros Hb Hr.
  apply rotate_to_perpendicular in Hr as (old & Ho & Ho' & Hold & Hd & Hdot).
  induction l as [|x l IH]; simpl in *; [done|].
  destruct Hb as [Hx Hl]. split; [|by apply IH].
  destruct l as [|y l]; simpl in *; [|done].
  destruct Hx as (Hxo & Hxd & _ & _).
  assert (old = direction x) as -> by congruence. by split_and!.
Qed.

Lemma bends_lookup l (i : nat) a b :
  bends l → l !! i = Some a → l !! S i = Some b → turns a b.
Proof.
  revert i. induction l as [|x l IH]; intros i Hb Ha Hn; [done|].
  destruct Hb as [Hx Hl]. destruct i as [|i].
  - destruct l as [|y l]; simplify_eq/=; done.
  - by apply (IH i).
Qed.

Lemma restore_bends self path self' path' :
  bends (path ++ [head self]) → restore self path = Ok (self', path') →
  bends (path' ++ [head self']).
Proof.
  intros Hb H. apply restore_cases in H
    as (h & c & self1 & js & h' & -> & Hidx & Hfree & Hjs & Hrot & Hset).
  apply for_in_set_frame in Hfree as [c1 ->].
  apply _cube_set_offset_frame in Hset as [c2 ->]. simpl in *.
  apply bends_app_l in Hb. by eapply bends_rotate.
Qed.

Lemma loop_body_bends fuel self path self' path' :
  bends (path ++ [head self]) →
  loop_body fuel self path = Ok (Continue self' path') →
  bends (path' ++ [head self']).
Proof.
  intros Hb H. apply loop_body_cases in H as (js & Hjs & H).
  destruct H as [(_ & _ & ?)|[(_ & h' & s1 & Hrot & Hset & ?)|
    [(_ & c & a & s1 & s2 & h' & Hc & Ha & Hle & Hs1 & Hs2 & Hh' & ?)|
    [(_ & _ & ?)|(_ & _ & s1 & p & Hr & ?)]]]]; simplify_eq.
  - apply _cube_set_offset_frame in Hset as [c1 ->]. simpl.
    by eapply bends_rotate.
  - apply for_in_set_frame in Hs1 as [c1 ->].
    apply _cube_set_offset_frame in Hs2 as [c2 ->]. simpl in *.
    rewrite <-app_assoc. apply bends_snoc; [done|].
    by eapply change_direction_turns_head.
  - by eapply restore_bends.
Qed.

Lemma while_loop_bends fuel self path q self' :
  bends (path ++ [head self]) →
  while_loop fuel self path = Ok (Some q, self') →
  bends (q ++ [head self']).
Proof.
  revert self path. induction fuel as [|fuel IH]; intros self path Hb;
    simpl; destruct (decide _); try done; try (by intros; simplify_eq).
  intros H. apply bind_Ok in H as (r & Hr & H).
  destruct r as [s1 p|s1]; [|done].
  eapply IH; [|done]. by eapply loop_body_bends.
Qed.

Lemma _backtrack_bends fuel self q self' :
  (_pos self ≠ 0 → ∃ ps p, _paths self = ps ++ [p] ∧
                           bends (p ++ [head self])) →
  _backtrack fuel self = Ok (Some q, self') →
  bends (q ++ [head self']).
Proof.
  intros Hpre. unfold _backtrack. destruct (decide _) as [H0|H0]; intros H.
  - apply bind_Ok in H as (s1 & Hs1 & H).
    apply _cube_set_offset_frame in Hs1 as [c1 ->].
    by eapply while_loop_bends; [|done].
  - apply bind_Ok in H as (p & Hp & H).
    apply bind_Ok in H as ([s1 p1] & Hr & H).
    destruct (Hpre H0) as (ps & p' & Hps & Hb).
    rewrite Hps, py_index_last in Hp. injection Hp as <-.
    eapply while_loop_bends; [|done]. by eapply restore_bends.
Qed.

Lemma solve_loop_bends fuel self o self' :
  match o with Some p => bends (p ++ [head self]) | None => True end →
  Forall (λ p, ∃ h, bends (p ++ [h])) (_paths self) →
  solve_loop fuel self o = Ok self' →
  Forall (λ p, ∃ h, bends (p ++ [h])) (_paths self').
Proof.
  revert self o. induction fuel as [|fuel IH]; intros self [p|] Ho Hps;
    simpl; try done; try (by intros; simplify_eq).
  intros H. apply bind_Ok in H as ([o s1] & Hb & H).
  pose proof (_backtrack_paths _ _ _ _ Hb) as Hps1. simpl in Hps1.
  apply IH in H; try done.
  - destruct o as [q|]; [|done].
    apply _backtrack_bends in Hb; [done|]. intros _. by exists (_paths self), p.
  - rewrite Hps1. apply Forall_app. split; [done|]. apply Forall_singleton.
    by exists (head self).
Qed.

Lemma solve_bends fuel chain cubesize head paths self' :
  solve fuel (Backtrack_init chain cubesize head) = Ok (paths, self') →
  Forall (λ p, ∃ h, bends (p ++ [h])) paths.
Proof.
  unfold solve. simpl. intros H.
  apply bind_Ok in H as ([o s] & Hbt & H).
  apply bind_Ok in H as (s' & Hl & H). simplify_eq.
  pose proof (_backtrack_paths _ _ _ _ Hbt) as Hps. simpl in Hps.
  apply solve_loop_bends in Hl; [done| |].
  - destruct o as [q|]; [|done]. by apply _backtrack_bends in Hbt.
  - rewrite Hps. apply Forall_nil_2.
Qed.

(** In every solution that [solve] returns, each snapshot after the first
    remembers the direction of the one before it, and the two look along
    base directions perpendicular to each other: every joint of the
    folded chain is a 90 degree bend. *)
Theorem solutions_bend_at_every_joint fuel chain cubesize head paths self'
    (p : Path) (i : nat) (a b : BacktrackHead) :
  solve fuel (Backtrack_init chain cubesize head) = Ok (paths, self') →
  p ∈ paths → p !! i = Some a → p !! S i = Some b →
  _old_direction b = Some (direction a) ∧
  direction a ∈ baseDirections ∧ direction b ∈ baseDirections ∧
  dot (direction b) (direction a) = 0.
Proof.
  intros H Hp Ha Hb. apply solve_bends in H.
  destruct (proj1 (Forall_forall _ _) H _ Hp) as [h Hbends].
  apply bends_app_l in Hbends. by apply (bends_lookup p i a b).
Qed.

Lemma solutions_bend_at_every_joint_witness :
  ∃ a b, _old_direction b = Some (direction a) ∧
         direction a ∈ baseDirections ∧ direction b ∈ baseDirections ∧
         dot (direction b) (direction a) = 0.
Proof.
  assert (∃ p q self a b,
            solve 1000 (Backtrack_init chain_slices 3 start000)
            = Ok ([p; q], self) ∧ q !! 4%nat = Some a ∧ q !! 5%nat = Some b)
    as (p & q & self & a & b & H & Ha & Hb).
  { do 5 eexists. split; [by vm_compute|]. by split. }
  exists a, b.
  apply (solutions_bend_at_every_joint 1000 chain_slices 3 start000 [p; q]
           self q 4 a b H); [|done..].
  right. left.
Defined.

(** ** The two branches of the loop for a joint that has not wrapped *)

Lemma joint_not_wrapped js : js < N_JNTS → negb (_joint_wrapped js) = true.
Proof.
  intros H. unfold _joint_wrapped. rewrite bool_decide_eq_false_2; [done|lia].
Qed.

Lemma change_direction_ok h :
  direction h ∈ baseDirections →
  ∃ d, change_direction h = Ok (mkHead (base h) d (Some (direction h))).
Proof.
  intros H. destruct h as [b d o]. simpl in *.
  apply baseDirections_cases in H. destruct_or! H; subst d; by eexists.
Qed.

Lemma loop_body_place n fuel self path js c a :
  cubesize self = n → cube_wf n (_cube self) →
  cell_ok n (base (head self)) → direction (head self) ∈ baseDirections →
  _cube_get_offset self 0 = Ok js → js < N_JNTS →
  py_index (chain self) (_pos self) = Ok c → 0 < c →
  _nsteps fuel self = Ok a → c ≤ a →
  ∃ cube' d,
    loop_body fuel self path
    = Ok (Continue
            (mkBacktrack (chain self) (cubesize self)
               (mkHead (base (head self) +v c *v direction (head self)) d
                       (Some (direction (head self))))
               (_pos self + 1) (_chainlength self) cube' (_paths self))
            (path ++ [head self])) ∧
    change_direction (head self)
    = Ok (mkHead (base (head self)) d (Some (direction (head self)))) ∧
    cube_wf n cube' ∧
    ∀ x, cell_ok n x →
      cube_get cube' x =
        if decide (x = base (head self) +v c *v direction (head self))
        then Ok JOINT0
        else if decide (x ∈ slice_cells (head self) (c - 1)) then Ok POS_USED
        else cube_get (_cube self) x.
Proof.
  intros Hn Hwf Hb Hd Hjs Hlt Hc Hc0 Ha Hle.
  destruct (_nsteps_free n fuel self a Hn Hwf Hd Hb Ha) as [_ Hfree].
  destruct (for_in_set_in n (range 1 c) POS_USED self)
    as (c1 & E1 & Hwf1 & Hget1); [done| |].
  { intros i Hi. apply elem_of_range in Hi. apply Hfree. lia. }
  destruct (_cube_set_offset_in n (set_cube self c1) c JOINT0)
    as (c2 & E2 & Hwf2 & Hget2); [done|apply Hfree; simpl; lia|].
  destruct (change_direction_ok (head self) Hd) as [d Ed].
  exists c2, d. split_and!; try done.
  - unfold loop_body. rewrite Hjs. simpl. rewrite (joint_not_wrapped _ Hlt).
    rewrite Hc. simpl. rewrite Ha. simpl.
    rewrite decide_False by lia. rewrite E1. simpl. rewrite E2. simpl.
    unfold change_direction in *. simpl in *.
    destruct (dict_get jointDirections (direction (head self))) as [l| |];
      simpl in *; try done.
    destruct (py_index l JOINT0) as [d'| |]; simpl in *; try done.
    by simplify_eq.
  - intros x Hx. rewrite (Hget2 _ Hx). simpl. case_decide; [done|].
    rewrite (Hget1 _ Hx). unfold slice_cells.
    by replace (c - 1 + 1) with c by lia.
Qed.

Lemma loop_body_blocked fuel self path js c a :
  _cube_get_offset self 0 = Ok js → js < N_JNTS →
  py_index (chain self) (_pos self) = Ok c →
  _nsteps fuel self = Ok a → a < c →
  match _old_direction (head self) with
  | None => loop_body fuel self path = Ok (ReturnNone self)
  | Some old =>
      ∀ n candidates d,
        cube_wf n (_cube self) → cell_ok n (base (head self)) →
        jointDirections !! old = Some candidates →
        py_index candidates ((js + 1) `mod` N_JNTS) = Ok d →
        ∃ cube',
          loop_body fuel self path
          = Ok (Continue
                  (mkBacktrack (chain self) (cubesize self)
                     (mkHead (base (head self)) d (Some old))
                     (_pos self) (_chainlength self) cube' (_paths self))
                  path) ∧
          cube_wf n cube' ∧
          ∀ x, cell_ok n x →
            cube_get cube' x =
              if decide (x = base (head self)) then Ok (js + 1)
              else cube_get (_cube self) x
  end.
Proof.
  intros Hjs Hlt Hc Ha Hac.
  assert (loop_body fuel self path =
          match rotate_to (head self) ((js + 1) `mod` N_JNTS) with
          | Raise AssertionError => Ok (ReturnNone self)
          | Raise e => Raise e
          | OutOfFuel => OutOfFuel
          | Ok h' =>
              self ← _cube_set_offset (set_head self h') 0 (js + 1);
              Ok (Continue self path)
          end) as ->.
  { unfold loop_body. rewrite Hjs. simpl. rewrite (joint_not_wrapped _ Hlt).
    rewrite Hc. simpl. rewrite Ha. simpl. by rewrite decide_True by done. }
  unfold rotate_to. destruct (_old_direction (head self)) as [old|]; [|done].
  intros n candidates d Hwf Hb Hcand Hd.
  unfold dict_get. rewrite Hcand. simpl. rewrite Hd. simpl.
  destruct (_cube_set_offset_in n
              (set_head self (mkHead (base (head self)) d (Some old))) 0
              (js + 1)) as (c1 & E & Hwf1 & Hget1);
    [done|simpl; by rewrite vadd_0|].
  exists c1. rewrite E. simpl. split_and!; try done.
  intros x Hx. rewrite (Hget1 _ Hx). simpl. by rewrite vadd_0.
Qed.

(** When the slice fits in front of the head, the loop lays it: the cells
    between the joints become [POS_USED], the landing cell [JOINT0], the
    head is recorded in the path, moved to the landing cell and turned to
    candidate 0 of its old direction, and [_pos] grows by one. *)
Theorem fitting_slice_is_laid n fuel self path js c a :
  cubesize self = n → cube_wf n (_cube self) →
  cell_ok n (base (head self)) → direction (head self) ∈ baseDirections →
  _cube_get_offset self 0 = Ok js → js < N_JNTS →
  py_index (chain self) (_pos self) = Ok c → 0 < c →
  _nsteps fuel self = Ok a → c ≤ a →
  ∃ cube' d,
    loop_body fuel self path
    = Ok (Continue
            (mkBacktrack (chain self) (cubesize self)
               (mkHead (base (head self) +v c *v direction (head self)) d
                       (Some (direction (head self))))
               (_pos self + 1) (_chainlength self) cube' (_paths self))
            (path ++ [head self])) ∧
    change_direction (head self)
    = Ok (mkHead (base (head self)) d (Some (direction (head self)))) ∧
    cube_wf n cube' ∧
    ∀ x, cell_ok n x →
      cube_get cube' x =
        if decide (x = base (head self) +v c *v direction (head self))
        then Ok JOINT0
        else if decide (x ∈ slice_cells (head self) (c - 1)) then Ok POS_USED
        else cube_get (_cube self) x.
Proof. apply loop_body_place. Qed.

(** When the slice does not fit, a head that never changed direction makes
    the loop return [None] with the engine as it is; otherwise the head
    turns to candidate (state + 1) mod 4 of its old direction, state + 1
    is written into its cell, and path and [_pos] stay. *)
Theorem blocked_slice_turns_joint fuel self path js c a :
  _cube_get_offset self 0 = Ok js → js < N_JNTS →
  py_index (chain self) (_pos self) = Ok c →
  _nsteps fuel self = Ok a → a < c →
  match _old_direction (head self) with
  | None => loop_body fuel self path = Ok (ReturnNone self)
  | Some old =>
      ∀ n candidates d,
        cube_wf n (_cube self) → cell_ok n (base (head self)) →
        jointDirections !! old = Some candidates →
        py_index candidates ((js + 1) `mod` N_JNTS) = Ok d →
        ∃ cube',
          loop_body fuel self path
          = Ok (Continue
                  (mkBacktrack (chain self) (cubesize self)
                     (mkHead (base (head self)) d (Some old))
                     (_pos self) (_chainlength self) cube' (_paths self))
                  path) ∧
          cube_wf n cube' ∧
          ∀ x, cell_ok n x →
            cube_get cube' x =
              if decide (x = base (head self)) then Ok (js + 1)
              else cube_get (_cube self) x
  end.
Proof. apply loop_body_blocked. Qed.

Lemma fitting_slice_is_laid_witness :
  ∃ cube' d,
    loop_body 2 marked_start []
    = Ok (Continue
            (mkBacktrack [1] 2
               (mkHead (mkVector3D 0 0 0 +v 1 *v mkVector3D 1 0 0) d
                       (Some (mkVector3D 1 0 0)))
               (0 + 1) 1 cube' [])
            ([] ++ [start000])) ∧
    change_direction start000
    = Ok (mkHead (mkVector3D 0 0 0) d (Some (mkVector3D 1 0 0))) ∧
    cube_wf 2 cube' ∧
    ∀ x, cell_ok 2 x →
      cube_get cube' x =
        if decide (x = mkVector3D 0 0 0 +v 1 *v mkVector3D 1 0 0)
        then Ok JOINT0
        else if decide (x ∈ slice_cells start000 (1 - 1)) then Ok POS_USED
        else cube_get (_cube marked_start) x.
Proof.
  apply (fitting_slice_is_laid 2 2 marked_start [] (-1) 1 1); try done;
    try lia.
  - split; [done|]. repeat constructor.
  - by apply (bool_decide_unpack _); vm_compute.
Defined.

Lemma blocked_slice_turns_joint_witness :
  ∃ cube',
    loop_body 2 first_slice_laid [start000]
    = Ok (Continue
            (mkBacktrack [1; 2] 2
               (mkHead (mkVector3D 1 0 0) (mkVector3D 0 0 1)
                       (Some (mkVector3D 1 0 0)))
               1 2 cube' [])
            [start000]) ∧
    cube_wf 2 cube' ∧
    ∀ x, cell_ok 2 x →
      cube_get cube' x =
        if decide (x = mkVector3D 1 0 0) then Ok (0 + 1)
        else cube_get (_cube first_slice_laid) x.
Proof.
  assert (_cube_get_offset first_slice_laid 0 = Ok 0) as Hjs by done.
  assert (0 < N_JNTS) as Hlt by done.
  assert (py_index (chain first_slice_laid) (_pos first_slice_laid) = Ok 2)
    as Hc by done.
  assert (_nsteps 2 first_slice_laid = Ok 1) as Ha by done.
  assert (1 < 2) as Hac by lia.
  pose proof (blocked_slice_turns_joint 2 first_slice_laid [start000] 0 2 1
                Hjs Hlt Hc Ha Hac) as H.
  apply (H 2 [mkVector3D 0 1 0; mkVector3D 0 0 1; mkVector3D 0 (-1) 0;
              mkVector3D 0 0 (-1); mkVector3D 0 1 0] (mkVector3D 0 0 1));
    try done.
  split; [done|]. repeat constructor.
Defined.

(** ** The first slice *)

Ltac bind_ok := change (Ok ?a ≫= ?k) with (k a); cbv beta iota.

Lemma cube_set_same n cube c v :
  cube_wf n cube → cell_ok n c → cube_get cube c = Ok v →
  cube_set cube c v = Ok cube.
Proof.
  intros Hwf Hc Hget.
  destruct (cube_wf_lookup _ _ _ Hwf Hc)
    as (plane & row & w & Hp & Hr & Hw & Hlp & Hlr & Hrows).
  pose proof Hc as (Hx & Hy & Hz). destruct Hwf as [Hlen Hall].
  unfold cube_get in Hget. unfold cube_set.
  rewrite (py_index_lookup _ _ _ (proj1 Hx) Hp) in Hget |- *. simpl in *.
  rewrite (py_index_lookup _ _ _ (proj1 Hy) Hr) in Hget |- *. simpl in *.
  rewrite (py_index_lookup _ _ _ (proj1 Hz) Hw) in Hget. simplify_eq.
  rewrite py_setitem_insert by lia. simpl.
  rewrite py_setitem_insert by lia. simpl.
  rewrite py_setitem_insert by lia.
  rewrite (list_insert_id row) by done.
  rewrite (list_insert_id plane) by done.
  by rewrite (list_insert_id cube) by done.
Qed.

Lemma between_in_cube n b d c j :
  d ∈ baseDirections → cell_ok n b → cell_ok n (b +v c *v d) →
  0 ≤ j ≤ c → cell_ok n (b +v j *v d).
Proof.
  intros Hd Hb Hc Hj. apply baseDirections_cases in Hd.
  destruct b as [bx by_ bz]. unfold cell_ok in *. simpl in *.
  destruct_or!; subst d; simpl in *; lia.
Qed.

Lemma while_loop_done fuel self path :
  ¬ (_pos self < _chainlength self) →
  while_loop fuel self path = Ok (Some path, self).
Proof. intros H. destruct fuel; simpl; by rewrite decide_False. Qed.

Section first_slice.
Variables (n : Z) (ch : list Z) (b d : Vector3D).
Hypothesis Hb : cell_ok n b.
Hypothesis Hd : d ∈ baseDirections.

Local Abbreviation s0 := (Backtrack_init ch n (BacktrackHead_init b d)).

Lemma mark_start :
  ∃ cube1,
    _cube_set_offset s0 0 POS_USED = Ok (set_cube s0 cube1) ∧
    _cube_set_offset (set_cube s0 cube1) 0 POS_USED = Ok (set_cube s0 cube1) ∧
    cube_wf n cube1 ∧
    ∀ x, cell_ok n x →
      cube_get cube1 x = if decide (x = b) then Ok POS_USED else Ok POS_FREE.
Proof.
  destruct (_cube_set_offset_in n s0 0 POS_USED) as (c1 & E & Hwf & Hget).
  { apply cube_wf_init. }
  { simpl. by rewrite vadd_0. }
  simpl in Hget. rewrite vadd_0 in Hget.
  exists c1. split_and!; try done.
  - unfold _cube_set_offset. simpl. rewrite vadd_0.
    rewrite (cube_set_same n); try done.
    rewrite (Hget _ Hb). by rewrite decide_True.
  - intros x Hx. rewrite (Hget _ Hx). case_decide; [done|].
    by apply (init_all_free ch n (BacktrackHead_init b d)).
Qed.

Lemma nsteps_at_start cube1 fuel :
  cube_wf n cube1 →
  (∀ x, cell_ok n x →
     cube_get cube1 x = if decide (x = b) then Ok POS_USED else Ok POS_FREE) →
  (Z.to_nat n ≤ fuel)%nat →
  ∃ a, _nsteps fuel (set_cube s0 cube1) = Ok a ∧
       ∀ c, 0 < c → c ≤ a ↔ cell_ok n (b +v c *v d).
Proof.
  intros Hwf Hget Hfuel.
  destruct (_nsteps_exact n (set_cube s0 cube1) fuel)
    as (a & Ha & Hrange & Hfree & Hmax); try done.
  exists a. split; [done|]. simpl in *. intros c Hc. split.
  - intros Hle. apply Hfree. lia.
  - intros Hok. destruct (decide (c ≤ a)) as [|Hlt]; [done|].
    destruct Hmax.
    assert (cell_ok n (b +v (a + 1) *v d)) as Hnext
      by (apply (between_in_cube n b d c); [done..|lia]).
    split; [done|]. rewrite (Hget _ Hnext). rewrite decide_False; [done|].
    intros Heq. rewrite <-(vadd_0 b d) in Heq at 2.
    apply offset_inj in Heq; [lia|done].
Qed.
End first_slice.

Lemma restore_unrotated n self path h c :
  cube_wf n (_cube self) → _old_direction h = None →
  py_index (chain self) (_pos self - 1) = Ok c →
  cell_ok n (base h) → (∀ x, x ∈ slice_cells h c → cell_ok n x) →
  restore self (path ++ [h]) = Raise AssertionError.
Proof.
  intros Hwf Hold Hc Hb Hcells.
  unfold restore. cbv zeta. rewrite list_pop_snoc. bind_ok.
  cbn [_pos set_pos set_head chain]. rewrite Hc. bind_ok.
  destruct (for_in_set_in n (range 1 (c + 1)) POS_FREE
              (set_head (set_pos self (_pos self - 1)) h))
    as (c1 & E1 & Hwf1 & _); [done| |].
  { intros i Hi. apply Hcells, elem_of_slice_cells. exists i.
    apply elem_of_range in Hi. split; [lia|done]. }
  rewrite E1. bind_ok.
  unfold _cube_get_offset. cbn [head set_cube set_head _cube base direction].
  rewrite vadd_0. destruct (cube_get_in n c1 (base h) Hwf1 Hb) as [js ->].
  bind_ok. unfold rotate_to. cbn [head set_cube set_head]. by rewrite Hold.
Qed.

(** When the first slice would end outside the cube, [solve] on a new
    engine returns the empty list, and so does every further call: the
    search is over at its first probe. *)
Theorem first_slice_without_room (n c : Z) (rest : list Z) (b d : Vector3D)
    (fuel : nat) :
  cell_ok n b → d ∈ baseDirections → 0 < c →
  ¬ cell_ok n (b +v c *v d) → (Z.to_nat n ≤ fuel)%nat →
  ∃ self',
    solve (S fuel) (Backtrack_init (c :: rest) n (BacktrackHead_init b d))
    = Ok ([], self') ∧
    solve (S fuel) self' = Ok ([], self').
Proof.
  intros Hb Hd Hc Hout Hfuel.
  destruct (mark_start n (c :: rest) b d Hb) as (c1 & E & E' & Hwf & Hget).
  destruct (nsteps_at_start n (c :: rest) b d Hb Hd c1 fuel Hwf Hget Hfuel)
    as (a & Ha & Hiff).
  set (s0 := Backtrack_init (c :: rest) n (BacktrackHead_init b d)) in *.
  assert (while_loop (S fuel) (set_cube s0 c1) [] = Ok (None, set_cube s0 c1))
    as Hloop.
  { cbn [while_loop]. rewrite decide_True by (simpl; lia).
    assert (a < c) as Hac by (destruct (decide (c ≤ a)); [by destruct Hout; apply Hiff|lia]).
    pose proof (loop_body_blocked fuel (set_cube s0 c1) [] POS_USED c a) as Hblk.
    simpl in Hblk. rewrite Hblk; try done.
    unfold _cube_get_offset. simpl. rewrite vadd_0, (Hget _ Hb).
    by rewrite decide_True. }
  exists (set_cube s0 c1). split.
  - unfold solve. rewrite decide_True by done. unfold _backtrack.
    rewrite decide_True by done. rewrite E. bind_ok. rewrite Hloop. by bind_ok.
  - unfold solve. rewrite decide_True by done. unfold _backtrack.
    rewrite decide_True by done. rewrite E'. bind_ok. rewrite Hloop.
    by bind_ok.
Qed.

Lemma first_slice_without_room_witness :
  ∃ self',
    solve (S 2) (Backtrack_init [3] 2
                   (BacktrackHead_init (mkVector3D 1 1 0) (mkVector3D 0 (-1) 0)))
    = Ok ([], self') ∧
    solve (S 2) self' = Ok ([], self').
Proof.
  apply (first_slice_without_room 2 3 [] (mkVector3D 1 1 0)
           (mkVector3D 0 (-1) 0) 2).
  - unfold cell_ok. simpl. lia.
  - by apply (bool_decide_unpack _); vm_compute.
  - lia.
  - unfold cell_ok. simpl. lia.
  - simpl. lia.
Defined.

(** On a chain of a single slice that fits in front of the starting head,
    [solve] finds the solution, restarts the search on the starting head,
    which never changed direction, and lets the [AssertionError] of
    [rotate_to] escape. *)
Theorem single_slice_chain_raises (n c : Z) (b d : Vector3D) (fuel : nat) :
  cell_ok n b → d ∈ baseDirections → 0 < c →
  cell_ok n (b +v c *v d) → (Z.to_nat n ≤ fuel)%nat →
  solve (S fuel) (Backtrack_init [c] n (BacktrackHead_init b d))
  = Raise AssertionError.
Proof.
  intros Hb Hd Hc Hin Hfuel.
  destruct (mark_start n [c] b d Hb) as (c1 & E & _ & Hwf & Hget).
  destruct (nsteps_at_start n [c] b d Hb Hd c1 fuel Hwf Hget Hfuel)
    as (a & Ha & Hiff).
  set (s0 := Backtrack_init [c] n (BacktrackHead_init b d)) in *.
  assert (c ≤ a) as Hle by (by apply Hiff).
  destruct (loop_body_place n fuel (set_cube s0 c1) [] POS_USED c a)
    as (c2 & d' & Hbody & _ & Hwf2 & _); try done.
  { unfold _cube_get_offset. simpl. rewrite vadd_0, (Hget _ Hb).
    by rewrite decide_True. }
  simpl in Hbody.
  unfold solve. rewrite decide_True by done. unfold _backtrack at 1.
  rewrite decide_True by done. rewrite E. bind_ok.
  cbn [while_loop]. rewrite decide_True by (simpl; lia).
  rewrite Hbody. bind_ok. rewrite while_loop_done by (simpl; lia). bind_ok.
  cbn [solve_loop]. unfold _backtrack. rewrite decide_False by (simpl; lia).
  cbn [_paths set_paths].
  rewrite (py_index_last (A:=Path) [] [BacktrackHead_init b d]).
  bind_ok.
  rewrite (restore_unrotated n _ [] (BacktrackHead_init b d) c); try done.
  intros x Hx. apply elem_of_slice_cells in Hx as (k & Hk & ->).
  apply (between_in_cube n b d c); [done..|lia].
Qed.

Lemma single_slice_chain_raises_witness :
  solve (S 3) (Backtrack_init [2] 3
                 (BacktrackHead_init (mkVector3D 1 0 2) (mkVector3D 0 1 0)))
  = Raise AssertionError.
Proof.
  apply (single_slice_chain_raises 3 2 (mkVector3D 1 0 2) (mkVector3D 0 1 0) 3).
  - unfold cell_ok. simpl. lia.
  - by apply (bool_decide_unpack _); vm_compute.
  - lia.
  - unfold cell_ok. simpl. lia.
  - simpl. lia.
Defined.

(** ** The states of the search *)

Lemma in_search_passes n ch s k fuel self path self' path' :
  in_search n ch s self path →
  passes k fuel self path = Ok (self', path') →
  in_search n ch s self' path'.
Proof.
  revert self path. induction k as [|k IH]; intros self path Hin H; simpl in H.
  - by simplify_eq.
  - apply bind_Ok in H as ([s1 p1|s1] & Hr & H); [|done].
    apply (IH s1 p1); [|done]. by eapply search_pass.
Qed.

Lemma in_search_invariant n ch s self path :
  Forall (λ c, 0 < c) ch →
  in_search n ch s self path →
  (∃ ps, Inv n ch s ps self path) ∧ bends (path ++ [head self]).
Proof.
  intros Hch. induction 1 as
    [self self' Hf Hset|fuel self path self' path' _ [[ps HI] Hb] Hr
    |self path self' path' _ [[ps HI] Hb] Hpos Hr].
  - split; [|done]. exists (_paths self). by apply first_run_Inv.
  - split; [|by eapply loop_body_bends].
    exists ps. by apply (loop_body_Inv n ch s Hch ps fuel self path).
  - split.
    + exists (_paths self ++ [path]).
      apply (restore_Inv n ch s Hch _ _ path _ _
               (Inv_set_paths n ch s ps _ self path HI) Hr).
    + by eapply (restore_bends (set_paths self (_paths self ++ [path]))).
Qed.

Lemma jointDirections_candidate old l k :
  jointDirections !! old = Some l → 0 ≤ k < N_JNTS →
  ∃ d, py_index l k = Ok d.
Proof.
  intros H Hk. unfold N_JNTS in Hk.
  assert (k = 0 ∨ k = 1 ∨ k = 2 ∨ k = 3) as Hk' by lia.
  table_cases H; destruct_or! Hk'; subst k; by eexists.
Qed.

Lemma restore_pops n self path' h c js' old candidates d :
  py_index (chain self) (_pos self - 1) = Ok c →
  cube_wf n (_cube self) →
  direction h ∈ baseDirections →
  cell_ok n (base h) →
  (∀ x, x ∈ slice_cells h c → cell_ok n x) →
  cube_get (_cube self) (base h) = Ok js' →
  _old_direction h = Some old →
  jointDirections !! old = Some candidates →
  py_index candidates ((js' + 1) `mod` N_JNTS) = Ok d →
  ∃ cube',
    restore self (path' ++ [h])
    = Ok (mkBacktrack (chain self) (cubesize self)
            (mkHead (base h) d (Some old)) (_pos self - 1)
            (_chainlength self) cube' (_paths self), path') ∧
    cube_wf n cube' ∧
    ∀ x, cell_ok n x →
      cube_get cube' x =
        if decide (x = base h) then Ok (js' + 1)
        else if decide (x ∈ slice_cells h c) then Ok POS_FREE
        else cube_get (_cube self) x.
Proof.
  intros Hc Hwf Hd Hb Hcells Hjs' Hold Hcand Hidx.
  set (self0 := set_head (set_pos self (_pos self - 1)) h).
  destruct (for_in_set_in n (range 1 (c + 1)) POS_FREE self0)
    as (c1 & E1 & Hwf1 & Hget1); [done| |].
  { intros i Hi. apply Hcells, elem_of_slice_cells. exists i.
    apply elem_of_range in Hi. split; [lia|done]. }
  assert (base h ∉ slice_cells h c) as Hnotin.
  { intros Hin. apply elem_of_slice_cells in Hin as (k & Hk & Hin).
    rewrite <-(vadd_0 (base h) (direction h)) in Hin at 1.
    apply offset_inj in Hin; [lia|done]. }
  assert (cube_get c1 (base h) = Ok js') as Hjs1.
  { rewrite (Hget1 _ Hb). by rewrite decide_False. }
  set (h' := mkHead (base h) d (Some old)).
  destruct (_cube_set_offset_in n (set_head (set_cube self0 c1) h') 0
              (js' + 1)) as (c2 & E2 & Hwf2 & Hget2);
    [done|simpl; by rewrite vadd_0|].
  exists c2. split; [|split; [done|]].
  - unfold restore. cbv zeta. rewrite list_pop_snoc. simpl.
    rewrite Hc. simpl. fold self0. rewrite E1. simpl.
    unfold _cube_get_offset. simpl. rewrite vadd_0, Hjs1. simpl.
    unfold rotate_to. simpl. rewrite Hold. unfold dict_get.
    rewrite Hcand. simpl. rewrite Hidx. simpl.
    fold h'. by rewrite E2.
  - intros x Hx. rewrite (Hget2 _ Hx). simpl. rewrite vadd_0.
    case_decide; [done|]. apply (Hget1 _ Hx).
Qed.

(** C4, amended: at the top of a pass of the search loop, when the joint
    state under the head is at least 4, the loop returns [None] exactly
    when [_pos] is 1; for every [_pos] greater than 1 it pops the last
    snapshot, decrements [_pos], frees the cells of that slice, turns the
    popped head to candidate (state + 1) mod 4 of its joint, writes
    state + 1 into the cell of that joint and goes on with the loop. *)
Theorem wrapped_joint_step n ch s fuel self path js :
  Forall (λ c, 0 < c) ch → in_search n ch s self path →
  _cube_get_offset self 0 = Ok js → js >= N_JNTS →
  (loop_body fuel self path = Ok (ReturnNone self) ↔ _pos self = 1) ∧
  (1 < _pos self →
   ∃ path' h c js' old candidates d cube',
     path = path' ++ [h] ∧
     py_index (chain self) (_pos self - 1) = Ok c ∧
     cube_get (_cube self) (base h) = Ok js' ∧
     _old_direction h = Some old ∧
     jointDirections !! old = Some candidates ∧
     py_index candidates ((js' + 1) `mod` N_JNTS) = Ok d ∧
     loop_body fuel self path
     = Ok (Continue (mkBacktrack (chain self) (cubesize self)
                       (mkHead (base h) d (Some old)) (_pos self - 1)
                       (_chainlength self) cube' (_paths self)) path') ∧
     cube_wf n cube' ∧
     ∀ x, cell_ok n x →
       cube_get cube' x =
         if decide (x = base h) then Ok (js' + 1)
         else if decide (x ∈ slice_cells h c) then Ok POS_FREE
         else cube_get (_cube self) x).
Proof.
  intros Hch Hin Hjs Hw.
  assert (loop_body fuel self path =
          if decide (_pos self = 1) then Ok (ReturnNone self)
          else '(self, path) ← restore self path; Ok (Continue self path))
    as Hbody.
  { unfold loop_body. rewrite Hjs. simpl. unfold _joint_wrapped.
    by rewrite bool_decide_eq_true_2 by done. }
  split.
  - rewrite Hbody. destruct (decide (_pos self = 1)); [done|]. split; [|done].
    intros H. apply bind_Ok in H as ([s1 p1] & _ & H). done.
  - intros Hpos.
    destruct (in_search_invariant _ _ _ _ _ Hch Hin) as [[ps [L G]] Hb].
    destruct L as [Lchain Lclen Lpaths Lpos Lle].
    destruct G as [Gsize Gwf Gvals Glink Gnodup Gocc].
    destruct path as [|h path' _] using rev_ind; [simpl in Lpos; lia|].
    rewrite length_app in Lpos, Lle. simpl in Lpos, Lle.
    destruct path' as [|g path'' _] using rev_ind; [simpl in Lpos; lia|].
    apply linked_snoc in Glink as (c & Hc & Hlink & Hend).
    rewrite (occupied_snoc _ _ _ _ _ Hc) in Gnodup, Gocc.
    assert (py_index (chain self) (_pos self - 1) = Ok c) as Hidx.
    { rewrite Lchain. apply py_index_lookup; [lia|].
      by replace (Z.to_nat (_pos self - 1)) with (length (path'' ++ [g]))
        by lia. }
    pose proof (bends_app_l _ _ Hb) as Hb'.
    rewrite <-app_assoc in Hb'.
    assert (turns g h) as (Hold & Hgd & Hhd & _).
    { clear -Hb'. induction path'' as [|x l IH]; simpl in Hb'; [tauto|].
      apply IH. tauto. }
    assert (is_Some (jointDirections !! direction g)) as [candidates Hcand]
      by (by apply jointDirections_keys).
    assert (base h ∈ occupied s ch (path'' ++ [g])) as Hbase
      by (by apply linked_end_occupied).
    destruct (Gocc (base h)) as [Hbok Hne]; [apply elem_of_app; by left|].
    destruct (cube_get_in _ _ _ Gwf Hbok) as [js' Hjs'].
    destruct (jointDirections_candidate _ _ ((js' + 1) `mod` N_JNTS) Hcand)
      as [d Hd]; [apply Z.mod_pos_bound; done|].
    destruct (restore_pops n self (path'' ++ [g]) h c js' (direction g)
                candidates d) as (cube' & Hr & Hwf' & Hget'); try done.
    { intros x Hx. apply Gocc, elem_of_app. by right. }
    exists (path'' ++ [g]), h, c, js', (direction g), candidates, d, cube'.
    split_and!; try done.
    rewrite Hbody, decide_False by lia. by rewrite Hr.
Qed.

Lemma wrapped_joint_step_witness :
  (loop_body 0 wrapped_at_2 wrapped_at_2_path = Ok (ReturnNone wrapped_at_2)
   ↔ _pos wrapped_at_2 = 1) ∧
  (1 < _pos wrapped_at_2 →
   ∃ path' h c js' old candidates d cube',
     wrapped_at_2_path = path' ++ [h] ∧
     py_index (chain wrapped_at_2) (_pos wrapped_at_2 - 1) = Ok c ∧
     cube_get (_cube wrapped_at_2) (base h) = Ok js' ∧
     _old_direction h = Some old ∧
     jointDirections !! old = Some candidates ∧
     py_index candidates ((js' + 1) `mod` N_JNTS) = Ok d ∧
     loop_body 0 wrapped_at_2 wrapped_at_2_path
     = Ok (Continue (mkBacktrack (chain wrapped_at_2) (cubesize wrapped_at_2)
                       (mkHead (base h) d (Some old)) (_pos wrapped_at_2 - 1)
                       (_chainlength wrapped_at_2) cube'
                       (_paths wrapped_at_2)) path') ∧
     cube_wf 2 cube' ∧
     ∀ x, cell_ok 2 x →
       cube_get cube' x =
         if decide (x = base h) then Ok (js' + 1)
         else if decide (x ∈ slice_cells h c) then Ok POS_FREE
         else cube_get (_cube wrapped_at_2) x).
Proof.
  apply (wrapped_joint_step 2 [1; 1; 2] (mkVector3D 0 0 0) 0 wrapped_at_2
           wrapped_at_2_path 4).
  - repeat (constructor; [lia|]). constructor.
  - assert (in_search 2 [1; 1; 2] (mkVector3D 0 0 0)
              (mkBacktrack [1; 1; 2] 2 start000 0 3
                 [[[-1; -2]; [-2; -2]]; [[-2; -2]; [-2; -2]]] []) []) as H0.
    { apply (search_first 2 [1; 1; 2] (mkVector3D 0 0 0)
               (Backtrack_init [1; 1; 2] 2 start000)); [|done].
      apply (fresh_init [1; 1; 2] 2 start000). unfold cell_ok. simpl. lia. }
    apply (in_search_passes _ _ _ 6 2 _ _ _ _ H0). by vm_compute.
  - done.
  - done.
Defined.

